(** * The write-ahead state of go-evm: [src/state/was.go]

    A shallow embedding of [WriteAheadState] and of its three methods
    [Reset], [ApplyTransaction] and [Commit], followed by the properties of
    the epoch life cycle (reset, apply, commit).

    The methods talk to go-ethereum: the state database, the EVM, the
    key-value store.  Every such call that reads or writes mutable state is
    an event of the signature [Ext]; a method is a finite tree of events
    ([Prog]) threaded through the receiver ([M]).  The collaborators
    themselves are not modelled: every theorem holds for all of them. *)

From Stdlib Require Import ZArith NArith String Bool Lia List.
From Stdlib Require Import Strings.Byte.
Import ListNotations.

Set Implicit Arguments.
Local Open Scope Z_scope.

(** ** Data of go-ethereum used by the file *)

Definition Bytes := list byte.

(** Go's [error] interface; [None] is [nil]. *)
Definition error := string.

(** [common.Hash] is [[32]byte], [common.Address] is [[20]byte]. *)
Record Hash := mkHash { hashBytes : Bytes }.
Record Address := mkAddress { addressBytes : Bytes }.

Definition HashLength : nat := 32.
Definition AddressLength : nat := 20.

(** [common.Hash{}] and [common.Address{}]: the zero values. *)
Definition zeroHash : Hash := mkHash (repeat "000"%byte HashLength).
Definition zeroAddress : Address := mkAddress (repeat "000"%byte AddressLength).

(** [types.Bloom] is [[256]byte]. *)
Record Bloom := mkBloom { bloomBytes : Bytes }.
Definition zeroBloom : Bloom := mkBloom (repeat "000"%byte 256).

(** [types.Transaction]: the fields of its [txdata].  A pointer that may be
    [nil] is an [option]; [uint64] is [N]; [*big.Int] is [option Z]. *)
Record Transaction := mkTransaction {
  AccountNonce : N;
  Price : option Z;
  TxGasLimit : N;
  Recipient : option Address;
  Amount : option Z;
  Payload : Bytes;
  SigV : option Z;
  SigR : option Z;
  SigS : option Z
}.

(** [ethTypes.Transaction{}]. *)
Definition emptyTransaction : Transaction :=
  mkTransaction 0 None 0 None None [] None None None.

(** [tx.Nonce()]. *)
Definition Nonce (tx : Transaction) : N := AccountNonce tx.

(** [types.Message], with its accessors [To()], [From()], [Gas()],
    [GasPrice()] as projections. *)
Record Message := mkMessage {
  To : option Address;
  From : Address;
  MsgNonce : N;
  MsgAmount : option Z;
  Gas : N;
  GasPrice : option Z;
  MsgData : Bytes;
  CheckNonce : bool
}.

(** [types.Log]. *)
Record Log := mkLog {
  LogAddress : Address;
  Topics : list Hash;
  LogData : Bytes;
  LogBlockNumber : N;
  LogTxHash : Hash;
  LogTxIndex : N;
  LogBlockHash : Hash;
  LogIndex : N;
  Removed : bool
}.

(** [types.Receipt]. *)
Record Receipt := mkReceipt {
  PostState : Bytes;
  Status : N;
  CumulativeGasUsed : N;
  RcptBloom : Bloom;
  Logs : list Log;
  TxHash : Hash;
  ContractAddress : Address;
  GasUsed : N
}.

Definition ReceiptStatusFailed : N := 0.
Definition ReceiptStatusSuccessful : N := 1.

(** [types.NewReceipt(root, failed, cumulativeGasUsed)] of go-ethereum: the
    other fields keep their zero values. *)
Definition NewReceipt (root : Bytes) (failed : bool) (cumulativeGasUsed : N) : Receipt :=
  {| PostState := root;
     Status := if failed then ReceiptStatusFailed else ReceiptStatusSuccessful;
     CumulativeGasUsed := cumulativeGasUsed;
     RcptBloom := zeroBloom;
     Logs := [];
     TxHash := zeroHash;
     ContractAddress := zeroAddress;
     GasUsed := 0 |}.

Definition withTxHash (h : Hash) (r : Receipt) : Receipt :=
  mkReceipt (PostState r) (Status r) (CumulativeGasUsed r) (RcptBloom r)
            (Logs r) h (ContractAddress r) (GasUsed r).
Definition withGasUsed (g : N) (r : Receipt) : Receipt :=
  mkReceipt (PostState r) (Status r) (CumulativeGasUsed r) (RcptBloom r)
            (Logs r) (TxHash r) (ContractAddress r) g.
Definition withContractAddress (a : Address) (r : Receipt) : Receipt :=
  mkReceipt (PostState r) (Status r) (CumulativeGasUsed r) (RcptBloom r)
            (Logs r) (TxHash r) a (GasUsed r).
Definition withLogs (l : list Log) (r : Receipt) : Receipt :=
  mkReceipt (PostState r) (Status r) (CumulativeGasUsed r) (RcptBloom r)
            l (TxHash r) (ContractAddress r) (GasUsed r).
Definition withBloom (b : Bloom) (r : Receipt) : Receipt :=
  mkReceipt (PostState r) (Status r) (CumulativeGasUsed r) b
            (Logs r) (TxHash r) (ContractAddress r) (GasUsed r).

(** [core.GasPool] is a [uint64]. *)
Definition GasPool := N.

(** [vm.Context] as [ApplyTransaction] fills it.  [CanTransfer] and
    [Transfer] are always the two functions of package [core] and carry no
    information. *)
Record Context := mkContext {
  GetHash : N -> Hash;
  Origin : Address;
  CtxGasLimit : N;
  CtxGasPrice : option Z;
  BlockNumber : Z
}.

(** The four results of [core.ApplyMessage], and the gas pool as the call
    leaves it (the pool is passed by pointer and debited in place). *)
Record MessageResult := mkMessageResult {
  mrRet : Bytes;
  mrGas : N;
  mrFailed : bool;
  mrErr : option error;
  mrPool : GasPool
}.

(** ** Machine arithmetic *)

(** Go's [int] on a 64-bit platform: two's complement wrap-around. *)
Definition wrapInt (z : Z) : Z := (z + 2 ^ 63) mod 2 ^ 64 - 2 ^ 63.

(** The [Uint64] method of [big.Int]: the low 64 bits of the absolute
    value. *)
Definition Uint64 (z : Z) : N := Z.to_N (Z.abs z mod 2 ^ 64).

(** [new(big.Int).SetUint64(x)]. *)
Definition SetUint64 (x : N) : Z := Z.of_N x.

(** [new(core.GasPool).AddGas(amount)]: a fresh pool is zero, so the
    overflow check of [AddGas] never fires. *)
Definition AddGas (gp : GasPool) (amount : N) : GasPool := (gp + amount)%N.

(** ** The pure functions of go-ethereum *)

Class GoEthereum := {
  (** [types.Signer], [params.ChainConfig], [vm.Config] *)
  Signer : Type;
  ChainConfig : Type;
  VMConfig : Type;
  (** a batch of the key-value store, [ethdb.Batch] *)
  Batch : Type;
  (** [tx.Hash()] *)
  txHash : Transaction -> Hash;
  (** [tx.AsMessage(signer)] *)
  AsMessage : Transaction -> Signer -> Message * option error;
  (** [crypto.CreateAddress(origin, nonce)] *)
  CreateAddress : Address -> N -> Address;
  (** [types.CreateBloom(receipts)] *)
  CreateBloom : list Receipt -> Bloom;
  (** [rlp.EncodeToBytes] on a transaction and on a [ReceiptForStorage] *)
  EncodeTransaction : Transaction -> Bytes * option error;
  EncodeReceiptForStorage : Receipt -> Bytes * option error;
  (** the keys of package [state], declared beside [was.go] *)
  rootKey : Bytes;
  headTxKey : Bytes;
  receiptsPrefix : Bytes
}.

(** ** The session and the calls that leave it *)

Section WriteAhead.

Context {eth : GoEthereum}.

(** [WriteAheadState].  The handles [db] and [ethState] are fixed at
    construction and point into the collaborators' state (the world the
    events act on); [logger] only prints.  [totalUsedGas] and [gp] are
    pointers, [nil] until the first [Reset]. *)
Record WriteAheadState := mkWAS {
  signer : Signer;
  chainConfig : ChainConfig;
  vmConfig : VMConfig;
  gasLimit : N;
  txIndex : Z;
  transactions : list Transaction;
  receipts : list Receipt;
  allLogs : list Log;
  totalUsedGas : option Z;
  gp : option GasPool
}.

(** [NewWriteAheadState] once [ethState.New] has succeeded: the fields it
    does not name keep their zero values. *)
Definition NewWriteAheadState (sg : Signer) (cc : ChainConfig) (vc : VMConfig)
    (limit : N) : WriteAheadState :=
  mkWAS sg cc vc limit 0 [] [] [] None None.

Definition setTxIndex (v : Z) (was : WriteAheadState) :=
  mkWAS (signer was) (chainConfig was) (vmConfig was) (gasLimit was)
        v (transactions was) (receipts was) (allLogs was)
        (totalUsedGas was) (gp was).
Definition setTransactions (v : list Transaction) (was : WriteAheadState) :=
  mkWAS (signer was) (chainConfig was) (vmConfig was) (gasLimit was)
        (txIndex was) v (receipts was) (allLogs was)
        (totalUsedGas was) (gp was).
Definition setReceipts (v : list Receipt) (was : WriteAheadState) :=
  mkWAS (signer was) (chainConfig was) (vmConfig was) (gasLimit was)
        (txIndex was) (transactions was) v (allLogs was)
        (totalUsedGas was) (gp was).
Definition setAllLogs (v : list Log) (was : WriteAheadState) :=
  mkWAS (signer was) (chainConfig was) (vmConfig was) (gasLimit was)
        (txIndex was) (transactions was) (receipts was) v
        (totalUsedGas was) (gp was).
Definition setTotalUsedGas (v : option Z) (was : WriteAheadState) :=
  mkWAS (signer was) (chainConfig was) (vmConfig was) (gasLimit was)
        (txIndex was) (transactions was) (receipts was) (allLogs was)
        v (gp was).
Definition setGp (v : option GasPool) (was : WriteAheadState) :=
  mkWAS (signer was) (chainConfig was) (vmConfig was) (gasLimit was)
        (txIndex was) (transactions was) (receipts was) (allLogs was)
        (totalUsedGas was) v.

(** The engine writes the pool through the pointer it was given: a [nil]
    pointer stays [nil]. *)
Definition storePool (p : option GasPool) (v : GasPool) : option GasPool :=
  match p with
  | Some _ => Some v
  | None => None
  end.

(** The stateful calls, each with the type of what it returns. *)
Inductive Ext : Type -> Type :=
  (** [was.ethState.Reset(root)] *)
| StateReset (root : Hash) : Ext (option error)
  (** [was.ethState.Prepare(thash, bhash, ti)] *)
| StatePrepare (thash bhash : Hash) (ti : Z) : Ext unit
  (** [core.ApplyMessage(vm.NewEVM(context, was.ethState, &chainConfig,
      vmConfig), msg, gp)] *)
| ApplyMessage (context : Context) (cc : ChainConfig) (vc : VMConfig)
    (msg : Message) (pool : option GasPool) : Ext MessageResult
  (** [was.ethState.IntermediateRoot(deleteEmptyObjects)] *)
| StateIntermediateRoot (deleteEmptyObjects : bool) : Ext Hash
  (** [was.ethState.GetLogs(hash)] *)
| StateGetLogs (hash : Hash) : Ext (list Log)
  (** [was.ethState.Commit(deleteEmptyObjects)] *)
| StateCommit (deleteEmptyObjects : bool) : Ext (Hash * option error)
  (** [was.ethState.Database().TrieDB().Commit(node, report)] *)
| TrieDBCommit (node : Hash) (report : bool) : Ext (option error)
  (** [was.db.Put(key, value)] *)
| DbPut (key value : Bytes) : Ext (option error)
  (** [was.db.NewBatch()] *)
| DbNewBatch : Ext Batch
  (** [batch.Put(key, value)] *)
| BatchPut (b : Batch) (key value : Bytes) : Ext (option error)
  (** [batch.Write()] *)
| BatchWrite (b : Batch) : Ext (option error).

(** A method body: a finite tree of calls. *)
Inductive Prog (A : Type) : Type :=
| Ret (a : A)
| Vis (X : Type) (e : Ext X) (k : X -> Prog A).

Arguments Ret {A} a.
Arguments Vis {A X} e k.

Fixpoint pbind {A B} (p : Prog A) (f : A -> Prog B) : Prog B :=
  match p with
  | Ret a => f a
  | Vis e k => Vis e (fun x => pbind (k x) f)
  end.

(** A method of [*WriteAheadState]: it reads and writes the receiver, calls
    out, and either returns or panics ([None]: a nil dereference in the
    code of [was.go] itself; a panic raised inside a collaborator is not
    modelled, every call is taken to return). *)
Definition M (A : Type) : Type := WriteAheadState -> Prog (option (A * WriteAheadState)).

Definition ret {A} (a : A) : M A := fun was => Ret (Some (a, was)).

Definition bind {A B} (m : M A) (f : A -> M B) : M B :=
  fun was => pbind (m was)
    (fun r => match r with
              | Some (a, was') => f a was'
              | None => Ret None
              end).

Definition panic {A} : M A := fun _ => Ret None.

Definition gets {A} (f : WriteAheadState -> A) : M A := fun was => Ret (Some (f was, was)).

Definition modify (f : WriteAheadState -> WriteAheadState) : M unit :=
  fun was => Ret (Some (tt, f was)).

Definition call {X} (e : Ext X) : M X := fun was => Vis e (fun x => Ret (Some (x, was))).

End WriteAhead.

Arguments Ret {eth A} a.
Arguments Vis {eth A X} e k.

Declare Scope was_scope.
Delimit Scope was_scope with was.
Notation "x <- m ;; k" := (bind m (fun x => k))
  (at level 61, m at next level, right associativity) : was_scope.
Notation "m ;; k" := (bind m (fun _ => k))
  (at level 61, right associativity) : was_scope.
Notation "' pat <- m ;; k" := (bind m (fun pat => k))
  (at level 61, pat pattern, m at next level, right associativity) : was_scope.

(** ** The methods of [was.go] *)

Section Methods.

Context {eth : GoEthereum}.

Local Open Scope was_scope.

(** Reading through a pointer: a [nil] pointer panics. *)
Definition deref {A} (p : option A) : M A :=
  match p with
  | Some v => ret v
  | None => panic
  end.

(** [func (was *WriteAheadState) Reset(root common.Hash) error] *)
Definition Reset (root : Hash) : M (option error) :=
  err <- call (StateReset root) ;;
  match err with
  | Some e => ret (Some e)
  | None =>
      modify (setTxIndex 0) ;;
      modify (setTransactions []) ;;
      modify (setReceipts []) ;;
      modify (setAllLogs []) ;;
      modify (setTotalUsedGas (Some (SetUint64 0))) ;;
      limit <- gets gasLimit ;;
      modify (setGp (Some (AddGas 0%N limit))) ;;
      ret None
  end.

(** The [vm.Context] literal of [ApplyTransaction]: the block-hash oracle
    answers [blockHash] at every height, the block number is zero. *)
Definition newContext (msg : Message) (blockHash : Hash) : Context :=
  {| GetHash := fun _ => blockHash;
     Origin := From msg;
     CtxGasLimit := Gas msg;
     CtxGasPrice := GasPrice msg;
     BlockNumber := 0 |}.

(** [func (was *WriteAheadState) ApplyTransaction(tx ethTypes.Transaction,
    txIndex int, blockHash common.Hash) error] *)
Definition ApplyTransaction (tx : Transaction) (txIndex' : Z) (blockHash : Hash)
    : M (option error) :=
  sg <- gets signer ;;
  let (msg, err) := AsMessage tx sg in
  match err with
  | Some e => ret (Some e)
  | None =>
      let context := newContext msg blockHash in
      call (StatePrepare (txHash tx) blockHash txIndex') ;;
      cc <- gets chainConfig ;;
      vc <- gets vmConfig ;;
      pool <- gets gp ;;
      res <- call (ApplyMessage context cc vc msg pool) ;;
      modify (setGp (storePool pool (mrPool res))) ;;
      let gas := mrGas res in
      let failed := mrFailed res in
      match mrErr res with
      | Some e => ret (Some e)
      | None =>
          total <- (p <- gets totalUsedGas ;; deref p) ;;
          modify (setTotalUsedGas (Some (total + SetUint64 gas))) ;;
          root <- call (StateIntermediateRoot true) ;;
          total <- (p <- gets totalUsedGas ;; deref p) ;;
          let receipt := NewReceipt (hashBytes root) failed (Uint64 total) in
          let receipt := withTxHash (txHash tx) receipt in
          let receipt := withGasUsed gas receipt in
          let receipt :=
            match To msg with
            | None => withContractAddress (CreateAddress (Origin context) (Nonce tx)) receipt
            | Some _ => receipt
            end in
          logs <- call (StateGetLogs (txHash tx)) ;;
          let receipt := withLogs logs receipt in
          let receipt := withBloom (CreateBloom [receipt]) receipt in
          modify (fun was => setTxIndex (wrapInt (txIndex was + 1)) was) ;;
          modify (fun was => setTransactions (transactions was ++ [tx]) was) ;;
          modify (fun was => setReceipts (receipts was ++ [receipt]) was) ;;
          modify (fun was => setAllLogs (allLogs was ++ Logs receipt) was) ;;
          ret None
      end
  end.

(** [func (was *WriteAheadState) writeRoot(root common.Hash) error] *)
Definition writeRoot (root : Hash) : M (option error) :=
  call (DbPut rootKey (hashBytes root)).

(** [func (was *WriteAheadState) writeHead() error] *)
Definition writeHead : M (option error) :=
  txs <- gets transactions ;;
  let head := emptyTransaction in
  let head :=
    if (0 <? length txs)%nat
    then nth (length txs - 1) txs emptyTransaction
    else head in
  call (DbPut headTxKey (hashBytes (txHash head))).

(** The loop of [writeTransactions]: encode and put each transaction. *)
Fixpoint putTransactions (batch : Batch) (txs : list Transaction) : M (option error) :=
  match txs with
  | [] => ret None
  | tx :: rest =>
      let (data, err) := EncodeTransaction tx in
      match err with
      | Some e => ret (Some e)
      | None =>
          err <- call (BatchPut batch (hashBytes (txHash tx)) data) ;;
          match err with
          | Some e => ret (Some e)
          | None => putTransactions batch rest
          end
      end
  end.

(** [func (was *WriteAheadState) writeTransactions() error] *)
Definition writeTransactions : M (option error) :=
  batch <- call DbNewBatch ;;
  txs <- gets transactions ;;
  err <- putTransactions batch txs ;;
  match err with
  | Some e => ret (Some e)
  | None => call (BatchWrite batch)
  end.

(** The loop of [writeReceipts]. *)
Fixpoint putReceipts (batch : Batch) (rs : list Receipt) : M (option error) :=
  match rs with
  | [] => ret None
  | receipt :: rest =>
      let (data, err) := EncodeReceiptForStorage receipt in
      match err with
      | Some e => ret (Some e)
      | None =>
          err <- call (BatchPut batch (receiptsPrefix ++ hashBytes (TxHash receipt)) data) ;;
          match err with
          | Some e => ret (Some e)
          | None => putReceipts batch rest
          end
      end
  end.

(** [func (was *WriteAheadState) writeReceipts() error] *)
Definition writeReceipts : M (option error) :=
  batch <- call DbNewBatch ;;
  rs <- gets receipts ;;
  err <- putReceipts batch rs ;;
  match err with
  | Some e => ret (Some e)
  | None => call (BatchWrite batch)
  end.

(** [func (was *WriteAheadState) Commit() (common.Hash, error)] *)
Definition Commit : M (Hash * option error) :=
  '(root, err) <- call (StateCommit true) ;;
  match err with
  | Some e => ret (zeroHash, Some e)
  | None =>
  err <- call (TrieDBCommit root true) ;;
  match err with
  | Some e => ret (zeroHash, Some e)
  | None =>
  err <- writeRoot root ;;
  match err with
  | Some e => ret (zeroHash, Some e)
  | None =>
  err <- writeHead ;;
  match err with
  | Some e => ret (zeroHash, Some e)
  | None =>
  err <- writeTransactions ;;
  match err with
  | Some e => ret (zeroHash, Some e)
  | None =>
  err <- writeReceipts ;;
  match err with
  | Some e => ret (zeroHash, Some e)
  | None => ret (root, None)
  end end end end end end.

End Methods.

(** ** Running a method against the collaborators *)

Section Semantics.

Context {eth : GoEthereum}.

(** One call with the answer it got. *)
Record Event := Ev { evType : Type; evCall : Ext evType; evAnswer : evType }.

Definition Trace := list Event.

(** The collaborators: a state of their own and an answer to every call. *)
Variable World : Type.
Variable handle : forall X : Type, Ext X -> World -> X * World.

Fixpoint run {A} (p : Prog A) (w : World) : Trace * A * World :=
  match p with
  | Ret a => ([], a, w)
  | Vis e k =>
      let (x, w1) := handle e w in
      let '(t, a, w2) := run (k x) w1 in
      (Ev e x :: t, a, w2)
  end.

(** A method call on the session [was] in the world [w]: the calls made,
    the result with the session as the method leaves it ([None] after a
    panic), and the world afterwards. *)
Definition exec {A} (m : M A) (was : WriteAheadState) (w : World)
    : Trace * option (A * WriteAheadState) * World :=
  run (m was) w.

(** *** What a trace says *)

(** The answer of the engine, when the event is a call of it. *)
Definition engineAnswer (ev : Event) : option MessageResult :=
  match evCall ev in Ext X return X -> option MessageResult with
  | ApplyMessage _ _ _ _ _ => fun res => Some res
  | _ => fun _ => None
  end (evAnswer ev).

Fixpoint engineAnswers (t : Trace) : list MessageResult :=
  match t with
  | [] => []
  | ev :: rest =>
      match engineAnswer ev with
      | Some res => res :: engineAnswers rest
      | None => engineAnswers rest
      end
  end.

(** The gas the engine reported over a trace, and whether it reported a
    reverted execution. *)
Definition traceGas (t : Trace) : N :=
  fold_right (fun res acc => (mrGas res + acc)%N) 0%N (engineAnswers t).

Definition traceReverted (t : Trace) : bool :=
  existsb mrFailed (engineAnswers t).

(** The single-key writes to the key-value store, in order. *)
Definition dbPut (ev : Event) : option (Bytes * Bytes) :=
  match evCall ev with
  | DbPut key value => Some (key, value)
  | _ => None
  end.

Fixpoint dbPuts (t : Trace) : list (Bytes * Bytes) :=
  match t with
  | [] => []
  | ev :: rest =>
      match dbPut ev with
      | Some kv => kv :: dbPuts rest
      | None => dbPuts rest
      end
  end.

(** *** The stages of [Commit]

    Six stages in a fixed order. *)

Inductive Stage :=
| StateFinalize | TrieFlush | RootWrite | HeadWrite | TxWrite | ReceiptWrite.

Definition commitStages : list Stage :=
  [StateFinalize; TrieFlush; RootWrite; HeadWrite; TxWrite; ReceiptWrite].

Local Open Scope was_scope.

(** The statement of the body of [Commit] that runs a stage: the call or
    the helper of [was.go], with the root of the local variable [root],
    which only the first statement assigns. *)
Definition commitStep (st : Stage) (root : Hash) : M (Hash * option error) :=
  match st with
  | StateFinalize => call (StateCommit true)
  | TrieFlush => err <- call (TrieDBCommit root true) ;; ret (root, err)
  | RootWrite => err <- writeRoot root ;; ret (root, err)
  | HeadWrite => err <- writeHead ;; ret (root, err)
  | TxWrite => err <- writeTransactions ;; ret (root, err)
  | ReceiptWrite => err <- writeReceipts ;; ret (root, err)
  end.

(** The single-key writes a stage asks of the key-value store. *)
Definition stagePuts (st : Stage) (root : Hash) (was : WriteAheadState)
    : list (Bytes * Bytes) :=
  match st with
  | RootWrite => [(rootKey, hashBytes root)]
  | HeadWrite =>
      [(headTxKey, hashBytes (txHash (last (transactions was) emptyTransaction)))]
  | _ => []
  end.

(** [pipeline stages root was w t log root' was' w']: running the
    statements of [stages] in order from [(root, was, w)], with the early
    return of each, makes the calls [t], and [log] lists the statements
    that ran with the error of each. *)
Inductive pipeline :
  list Stage -> Hash -> WriteAheadState -> World ->
  Trace -> list (Stage * option error) -> Hash -> WriteAheadState -> World -> Prop :=
| pipeline_end root was w :
    pipeline [] root was w [] [] root was w
| pipeline_abort st rest root was w t root1 e was1 w1 :
    exec (commitStep st root) was w = (t, Some ((root1, Some e), was1), w1) ->
    pipeline (st :: rest) root was w t [(st, Some e)] root1 was1 w1
| pipeline_next st rest root was w t root1 was1 w1 t' log root2 was2 w2 :
    exec (commitStep st root) was w = (t, Some ((root1, None), was1), w1) ->
    pipeline rest root1 was1 w1 t' log root2 was2 w2 ->
    pipeline (st :: rest) root was w (t ++ t') ((st, None) :: log) root2 was2 w2.

(** A stage of a log that returned no error. *)
Definition succeeded (entry : Stage * option error) : Prop := snd entry = None.

(** The error of the first stage of a log that failed. *)
Fixpoint firstError (log : list (Stage * option error)) : option error :=
  match log with
  | [] => None
  | (_, Some e) :: _ => Some e
  | (_, None) :: rest => firstError rest
  end.

(** What [Commit] returns after a pipeline with this log. *)
Definition commitResult (log : list (Stage * option error)) (root : Hash)
    : Hash * option error :=
  match firstError log with
  | Some e => (zeroHash, Some e)
  | None => (root, None)
  end.

(** *** A successful apply, as the specification words it

    The receipt built for [tx] from the message [msg], the engine's answer
    [res] and the cumulative gas [total] before the call. *)
Definition receiptOf (tx : Transaction) (msg : Message) (res : MessageResult)
    (total : Z) (receipt : Receipt) : Prop :=
  Status receipt
    = (if mrFailed res then ReceiptStatusFailed else ReceiptStatusSuccessful) /\
  CumulativeGasUsed receipt = Uint64 (total + Z.of_N (mrGas res)) /\
  TxHash receipt = txHash tx /\
  GasUsed receipt = mrGas res /\
  ContractAddress receipt
    = match To msg with
      | None => CreateAddress (From msg) (Nonce tx)
      | Some _ => zeroAddress
      end.

(** The session [was1] is [was] with [tx], [receipt] and the receipt's logs
    appended, the gas of [res] added and the index advanced. *)
Definition appended (tx : Transaction) (res : MessageResult) (total : Z)
    (receipt : Receipt) (was was1 : WriteAheadState) : Prop :=
  txIndex was1 = wrapInt (txIndex was + 1) /\
  transactions was1 = transactions was ++ [tx] /\
  receipts was1 = receipts was ++ [receipt] /\
  allLogs was1 = allLogs was ++ Logs receipt /\
  totalUsedGas was1 = Some (total + Z.of_N (mrGas res)) /\
  gp was1 = storePool (gp was) (mrPool res) /\
  gasLimit was1 = gasLimit was.

(** *** Epochs

    An epoch starts with a [Reset] that returns no error.  The history
    of an epoch lists its successful [ApplyTransaction] calls, each with
    the gas and the outcome the engine reported for it. *)

Record Applied := mkApplied { apTx : Transaction; apGas : N; apReverted : bool }.

Definition sumGas (hist : list Applied) : Z :=
  fold_right (fun a acc => Z.of_N (apGas a) + acc) 0 hist.

(** [InEpoch hist was w]: the session [was] and the world [w] are reached
    from a successful [Reset] by calls of [ApplyTransaction] and [Commit],
    of which [hist] are the applies that returned no error. *)
Inductive InEpoch : list Applied -> WriteAheadState -> World -> Prop :=
| epoch_reset root was w t was1 w1 :
    exec (Reset root) was w = (t, Some (None, was1), w1) ->
    InEpoch [] was1 w1
| epoch_applied hist was w tx ti blockHash t was1 w1 :
    InEpoch hist was w ->
    exec (ApplyTransaction tx ti blockHash) was w = (t, Some (None, was1), w1) ->
    InEpoch (hist ++ [mkApplied tx (traceGas t) (traceReverted t)]) was1 w1
| epoch_rejected hist was w tx ti blockHash t e was1 w1 :
    InEpoch hist was w ->
    exec (ApplyTransaction tx ti blockHash) was w = (t, Some (Some e, was1), w1) ->
    InEpoch hist was1 w1
| epoch_committed hist was w t res was1 w1 :
    InEpoch hist was w ->
    exec Commit was w = (t, Some (res, was1), w1) ->
    InEpoch hist was1 w1.

End Semantics.

(** ** A stand-in for the collaborators

    A small in-memory double of go-ethereum with fault injection: the world
    carries a credit, every call that can fail spends one unit of it, and a
    call made on an empty credit fails.  It instantiates the theorems below
    on concrete runs. *)

Module Double.

Definition byteOfN (n : N) : byte :=
  match Byte.of_N (n mod 256) with
  | Some b => b
  | None => "000"%byte
  end.

Definition pad (len : nat) (bs : Bytes) : Bytes :=
  firstn len (bs ++ repeat "000"%byte len).

Definition sender : Address := mkAddress (repeat "170"%byte AddressLength).

#[local] Instance eth : GoEthereum := {|
  Signer := unit;
  ChainConfig := unit;
  VMConfig := unit;
  Batch := nat;
  txHash := fun tx =>
    mkHash (pad HashLength ("116"%byte :: byteOfN (AccountNonce tx) :: Payload tx));
  AsMessage := fun tx _ =>
    (mkMessage (Recipient tx) sender (AccountNonce tx) (Amount tx)
               (TxGasLimit tx) (Price tx) (Payload tx) true,
     match SigV tx with
     | Some _ => None
     | None => Some "invalid transaction v, r, s values"%string
     end);
  CreateAddress := fun origin nonce =>
    mkAddress (pad AddressLength (byteOfN nonce :: addressBytes origin));
  CreateBloom := fun _ => zeroBloom;
  EncodeTransaction := fun tx => (byteOfN (AccountNonce tx) :: Payload tx, None);
  EncodeReceiptForStorage := fun r => (PostState r, None);
  rootKey := list_byte_of_string "root";
  headTxKey := list_byte_of_string "headTx";
  receiptsPrefix := list_byte_of_string "receipts-"
|}.

Record World := mkWorld {
  credit : nat;
  stateRoot : Hash;
  stored : list (Bytes * Bytes);
  pending : list (Bytes * Bytes)
}.

(** Spend one unit of credit, or fail with [msg]. *)
Definition spend (msg : string) (w : World) (ok : World -> World) : option error * World :=
  match credit w with
  | O => (Some msg, w)
  | S c => (None, ok (mkWorld c (stateRoot w) (stored w) (pending w)))
  end.

Definition setStateRoot (r : Hash) (w : World) : World :=
  mkWorld (credit w) r (stored w) (pending w).
Definition setStored (l : list (Bytes * Bytes)) (w : World) : World :=
  mkWorld (credit w) (stateRoot w) l (pending w).
Definition setPending (l : list (Bytes * Bytes)) (w : World) : World :=
  mkWorld (credit w) (stateRoot w) (stored w) l.

(** The engine of the double: a message costs its whole gas limit, fails
    with an error when the pool cannot pay for it, and reverts when its
    payload starts with the REVERT opcode [0xfd]. *)
Definition applyMessage (msg : Message) (pool : option GasPool) (w : World)
    : MessageResult * World :=
  match pool with
  | None => (mkMessageResult [] 0 false (Some "nil gas pool"%string) 0%N, w)
  | Some p =>
      if (p <? Gas msg)%N
      then (mkMessageResult [] 0 false (Some "gas limit reached"%string) p, w)
      else
        let reverted :=
          match MsgData msg with
          | "253"%byte :: _ => true
          | _ => false
          end in
        (mkMessageResult [] (Gas msg) reverted None (p - Gas msg)%N,
         setStateRoot (mkHash (pad HashLength (byteOfN (MsgNonce msg) :: hashBytes (stateRoot w)))) w)
  end.

Definition handle (X : Type) (e : Ext X) (w : World) : X * World :=
  match e in Ext X return X * World with
  | StateReset root => spend "missing trie node" w (setStateRoot root)
  | StatePrepare _ _ _ => (tt, w)
  | ApplyMessage _ _ _ msg pool => applyMessage msg pool w
  | StateIntermediateRoot _ => (stateRoot w, w)
  | StateGetLogs hash => ([mkLog sender [] [] 0 hash 0 zeroHash 0 false], w)
  | StateCommit _ =>
      match credit w with
      | O => ((zeroHash, Some "state commit failed"%string), w)
      | S c => ((stateRoot w, None), mkWorld c (stateRoot w) (stored w) (pending w))
      end
  | TrieDBCommit _ _ => spend "trie flush failed" w (fun w => w)
  | DbPut key value => spend "put failed" w (fun w => setStored ((key, value) :: stored w) w)
  | DbNewBatch => (O, setPending [] w)
  | BatchPut _ key value =>
      spend "batch put failed" w (fun w => setPending ((key, value) :: pending w) w)
  | BatchWrite _ =>
      spend "batch write failed" w (fun w => setPending [] (setStored (pending w ++ stored w) w))
  end.

(** Inputs: a signed transfer, a signed contract creation whose code
    reverts, and a transaction without signature. *)
Definition recipient : Address := mkAddress (repeat "187"%byte AddressLength).

Definition transfer : Transaction :=
  mkTransaction 7 (Some 1) 21000 (Some recipient) (Some 5) [] (Some 27) (Some 1) (Some 1).

Definition creation : Transaction :=
  mkTransaction 8 (Some 1) 53000 None (Some 0) ["253"%byte] (Some 27) (Some 1) (Some 1).

Definition unsigned : Transaction :=
  mkTransaction 9 (Some 1) 21000 (Some recipient) (Some 5) [] None None None.

Definition fresh : WriteAheadState := NewWriteAheadState tt tt tt 100000.

Definition genesis : Hash := mkHash (pad HashLength ["103"%byte]).

Definition world (c : nat) : World := mkWorld c genesis [] [].

(** A transaction that asks for more gas than the pool of an epoch holds. *)
Definition greedy : Transaction :=
  mkTransaction 10 (Some 1) 200000 (Some recipient) (Some 5) [] (Some 27) (Some 1) (Some 1).

(** The session a call leaves ([fresh] after a panic) and what it returned. *)
Definition sessionOf {A} (r : Trace * option (A * WriteAheadState) * World)
    : WriteAheadState :=
  match snd (fst r) with
  | Some (_, was) => was
  | None => fresh
  end.

Definition returned {A} (r : Trace * option (A * WriteAheadState) * World)
    : option A :=
  match snd (fst r) with
  | Some (a, _) => Some a
  | None => None
  end.

(** An epoch of the double: a reset, the transfer, the reverting creation. *)
Definition resetRun := exec handle (Reset genesis) fresh (world 30).
Definition ready : WriteAheadState := Eval vm_compute in sessionOf resetRun.
Definition readyWorld : World := Eval vm_compute in snd resetRun.

Definition transferRun :=
  exec handle (ApplyTransaction transfer 0 genesis) ready readyWorld.
Definition one : WriteAheadState := Eval vm_compute in sessionOf transferRun.
Definition oneWorld : World := Eval vm_compute in snd transferRun.

Definition creationRun :=
  exec handle (ApplyTransaction creation 1 genesis) one oneWorld.
Definition two : WriteAheadState := Eval vm_compute in sessionOf creationRun.
Definition twoWorld : World := Eval vm_compute in snd creationRun.

Definition history : list Applied :=
  [mkApplied transfer 21000 false; mkApplied creation 53000 true].

(** What the engine of the double answers to the creation. *)
Definition creationAnswer : MessageResult :=
  mkMessageResult [] 53000 true None 26000%N.

(** Further calls at the end of this epoch: a transaction the pool cannot
    pay for, a commit that goes through, a commit whose root pointer write
    fails, and a reset on a database that does not know the root. *)
Definition greedyRun :=
  exec handle (ApplyTransaction greedy 2 genesis) two twoWorld.
Definition commitRun := exec handle Commit two twoWorld.
Definition failedCommit := exec handle Commit two (world 2).
Definition failedReset := exec handle (Reset genesis) two (world 0).

(** More runs: an apply on the session as constructed, the two batch
    writers at the end of the epoch, and a commit right after the reset. *)
Definition freshRun :=
  exec handle (ApplyTransaction transfer 0 genesis) fresh (world 5).
Definition transactionBatchRun := exec handle writeTransactions two twoWorld.
Definition receiptBatchRun := exec handle writeReceipts two twoWorld.
Definition emptyCommit := exec handle Commit ready readyWorld.

(** After the commit at the end of the epoch, and without a reset: one
    more transfer, and a second commit. *)
Definition thirdRun :=
  exec handle (ApplyTransaction transfer 2 genesis) two (snd commitRun).
Definition three : WriteAheadState := Eval vm_compute in sessionOf thirdRun.
Definition secondCommit := exec handle Commit three (snd thirdRun).

(** What a call of [Commit] returned. *)
Definition resultOf (r : Trace * option ((Hash * option error) * WriteAheadState) * World)
    : Hash * option error :=
  match snd (fst r) with
  | Some (res, _) => res
  | None => (genesis, None)
  end.

End Double.

(** ** What the batches and the receipts hold *)

Section Observations.

Context {eth : GoEthereum}.

(** The puts a trace asks of a batch, in order, and the number of batches
    it writes. *)
Definition batchPut (ev : Event) : option (Bytes * Bytes) :=
  match evCall ev with
  | BatchPut _ key value => Some (key, value)
  | _ => None
  end.

Fixpoint batchPuts (t : Trace) : list (Bytes * Bytes) :=
  match t with
  | [] => []
  | ev :: rest =>
      match batchPut ev with
      | Some kv => kv :: batchPuts rest
      | None => batchPuts rest
      end
  end.

Definition isBatchWrite (ev : Event) : bool :=
  match evCall ev with
  | BatchWrite _ => true
  | _ => false
  end.

Definition batchWrites (t : Trace) : nat := length (filter isBatchWrite t).

(** What a write of a whole batch does: the puts are a prefix of the
    entries, the batch is written at most once and only after every put,
    and it is written when no error is returned. *)
Definition batchOutcome (entries : list (Bytes * Bytes)) (t : Trace)
    (err : option error) (n : nat) : Prop :=
  (n <= length entries)%nat /\
  batchPuts t = firstn n entries /\
  (batchWrites t <= 1)%nat /\
  (batchWrites t = 1%nat -> n = length entries) /\
  (err = None -> n = length entries /\ batchWrites t = 1%nat).

(** The key and the value [writeTransactions] puts for a transaction, and
    [writeReceipts] for a receipt. *)
Definition transactionEntry (tx : Transaction) : Bytes * Bytes :=
  (hashBytes (txHash tx), fst (EncodeTransaction tx)).

Definition receiptEntry (receipt : Receipt) : Bytes * Bytes :=
  (receiptsPrefix ++ hashBytes (TxHash receipt), fst (EncodeReceiptForStorage receipt)).

(** What a stage of [Commit] puts in a batch when nothing fails, and the
    number of batches it writes. *)
Definition stageEntries (st : Stage) (was : WriteAheadState) : list (Bytes * Bytes) :=
  match st with
  | TxWrite => map transactionEntry (transactions was)
  | ReceiptWrite => map receiptEntry (receipts was)
  | _ => []
  end.

Definition stageWrites (st : Stage) : nat :=
  match st with
  | TxWrite | ReceiptWrite => 1%nat
  | _ => 0%nat
  end.

(** The status [NewReceipt] gives a receipt. *)
Definition statusOf (reverted : bool) : N :=
  if reverted then ReceiptStatusFailed else ReceiptStatusSuccessful.

(** The fields of a session no method assigns. *)
Definition sameConfiguration (was was1 : WriteAheadState) : Prop :=
  signer was1 = signer was /\
  chainConfig was1 = chainConfig was /\
  vmConfig was1 = vmConfig was /\
  gasLimit was1 = gasLimit was.

(** *** The stages of [Commit], as the specification words them

    What each stage asks of the collaborators, told from the calls alone:
    no helper of [was.go] is named here. *)

(** An item for a batch: its key, and the encoding or the error of the
    encoder. *)
Definition Item : Type := Bytes * (Bytes * option error).

(** Per-transaction key = transaction hash, the value is the encoded
    transaction. *)
Definition transactionItem (tx : Transaction) : Item :=
  (hashBytes (txHash tx), EncodeTransaction tx).

(** Per-receipt key = fixed prefix followed by the transaction hash, the
    value is the receipt in its storage encoding. *)
Definition receiptItem (receipt : Receipt) : Item :=
  (receiptsPrefix ++ hashBytes (TxHash receipt), EncodeReceiptForStorage receipt).

(** [batchLoop batch items t err]: the items are put into [batch] one after
    the other, in order; the first item that cannot be encoded or put ends
    the loop with its error, and nothing after it is encoded or put. *)
Inductive batchLoop (batch : Batch) : list Item -> Trace -> option error -> Prop :=
| loop_done :
    batchLoop batch [] [] None
| loop_encoding_failed key data e rest :
    batchLoop batch ((key, (data, Some e)) :: rest) [] (Some e)
| loop_put_failed key data e rest :
    batchLoop batch ((key, (data, None)) :: rest)
              [Ev (BatchPut batch key data) (Some e)] (Some e)
| loop_put key data rest t err :
    batchLoop batch rest t err ->
    batchLoop batch ((key, (data, None)) :: rest)
              (Ev (BatchPut batch key data) None :: t) err.

(** [batchRun items t err]: a new batch is asked for; the items are put
    into it; when the loop failed that is all, and its error is the
    result; when every item was put the batch is written, once, and the
    answer of the write is the result. *)
Inductive batchRun (items : list Item) : Trace -> option error -> Prop :=
| batch_dropped batch t e :
    batchLoop batch items t (Some e) ->
    batchRun items (Ev DbNewBatch batch :: t) (Some e)
| batch_written batch t err :
    batchLoop batch items t None ->
    batchRun items (Ev DbNewBatch batch :: t ++ [Ev (BatchWrite batch) err]) err.

(** [stageRun st root was t root1 err]: the calls [t] of stage [st], given
    the root [root] of the stages before it, with the root [root1] it hands
    on and its error [err]. *)
Definition stageRun (st : Stage) (root : Hash) (was : WriteAheadState)
    (t : Trace) (root1 : Hash) (err : option error) : Prop :=
  match st with
  | StateFinalize =>
      t = [Ev (StateCommit true) (root1, err)]
  | TrieFlush =>
      t = [Ev (TrieDBCommit root true) err] /\ root1 = root
  | RootWrite =>
      t = [Ev (DbPut rootKey (hashBytes root)) err] /\ root1 = root
  | HeadWrite =>
      t = [Ev (DbPut headTxKey
                 (hashBytes (txHash (last (transactions was) emptyTransaction)))) err]
      /\ root1 = root
  | TxWrite =>
      batchRun (map transactionItem (transactions was)) t err /\ root1 = root
  | ReceiptWrite =>
      batchRun (map receiptItem (receipts was)) t err /\ root1 = root
  end.

(** [stagesRun stages root was t log root1]: the stages run in order, each
    after the one before it returned no error; the first stage that fails
    is the last one that runs.  [t] is all the calls made, [log] the
    stages that ran with the error of each. *)
Inductive stagesRun :
  list Stage -> Hash -> WriteAheadState ->
  Trace -> list (Stage * option error) -> Hash -> Prop :=
| stages_end root was :
    stagesRun [] root was [] [] root
| stages_abort st rest root was t root1 e :
    stageRun st root was t root1 (Some e) ->
    stagesRun (st :: rest) root was t [(st, Some e)] root1
| stages_next st rest root was t root1 t' log root2 :
    stageRun st root was t root1 None ->
    stagesRun rest root1 was t' log root2 ->
    stagesRun (st :: rest) root was (t ++ t') ((st, None) :: log) root2.

(** The single-key writes of a trace with the answer of each. *)
Definition dbPutResult (ev : Event) : option (Bytes * Bytes * option error) :=
  match evCall ev in Ext X return X -> option (Bytes * Bytes * option error) with
  | DbPut key value => fun err => Some (key, value, err)
  | _ => fun _ => None
  end (evAnswer ev).

Fixpoint dbPutResults (t : Trace) : list (Bytes * Bytes * option error) :=
  match t with
  | [] => []
  | ev :: rest =>
      match dbPutResult ev with
      | Some r => r :: dbPutResults rest
      | None => dbPutResults rest
      end
  end.

End Observations.

(** ** Properties *)

Section Properties.

Context {eth : GoEthereum}.
Variable World : Type.
Variable handle : forall X : Type, Ext X -> World -> X * World.

Local Open Scope was_scope.

(** *** The monad *)

Lemma run_pbind {A B} (p : Prog A) (f : A -> Prog B) (w : World) :
  run handle (pbind p f) w =
  let '(t, a, w1) := run handle p w in
  let '(t', b, w2) := run handle (f a) w1 in
  (t ++ t', b, w2).
Proof.
  revert w; induction p as [a | X e k IH]; intros w; simpl.
  - destruct (run handle (f a) w) as [[t' b] w2]; reflexivity.
  - destruct (handle e w) as [x w1].
    rewrite IH.
    destruct (run handle (k x) w1) as [[t a] w2].
    destruct (run handle (f a) w2) as [[t' b] w3]; reflexivity.
Qed.

Lemma exec_bind {A B} (m : M A) (f : A -> M B) was w :
  exec handle (bind m f) was w =
  match exec handle m was w with
  | (t, Some (a, was1), w1) =>
      let '(t', r, w2) := exec handle (f a) was1 w1 in (t ++ t', r, w2)
  | (t, None, w1) => (t, None, w1)
  end.
Proof.
  unfold exec, bind. rewrite run_pbind.
  destruct (run handle (m was) w) as [[t [[a was1] | ]] w1]; simpl.
  - reflexivity.
  - rewrite app_nil_r; reflexivity.
Qed.

Lemma exec_ret {A} (a : A) was w : exec handle (ret a) was w = ([], Some (a, was), w).
Proof. reflexivity. Qed.

Lemma exec_gets {A} (f : WriteAheadState -> A) was w :
  exec handle (gets f) was w = ([], Some (f was, was), w).
Proof. reflexivity. Qed.

Lemma exec_modify f was w : exec handle (modify f) was w = ([], Some (tt, f was), w).
Proof. reflexivity. Qed.

Lemma exec_call {X} (e : Ext X) was w :
  exec handle (call e) was w =
  ([Ev e (fst (handle e w))], Some (fst (handle e w), was), snd (handle e w)).
Proof. unfold exec, call; simpl. destruct (handle e w); reflexivity. Qed.

Lemma exec_panic {A} was w : exec handle (@panic _ A) was w = ([], None, w).
Proof. reflexivity. Qed.

Local Abbreviation exec := (exec handle).
Local Abbreviation run := (run handle).

(** One step of symbolic execution of a method body. *)
Ltac exec_step :=
  first [ rewrite exec_bind | rewrite exec_ret | rewrite exec_gets
        | rewrite exec_modify | rewrite exec_call | rewrite exec_panic ];
  cbn beta iota zeta.

Ltac exec_all := repeat exec_step.

(** *** Traces *)

Lemma dbPuts_app t t' : dbPuts (t ++ t') = dbPuts t ++ dbPuts t'.
Proof.
  induction t as [ | ev t IH]; simpl; [reflexivity | ].
  destruct (dbPut ev); simpl; rewrite IH; reflexivity.
Qed.

(** *** The stages of [Commit] leave the session alone *)

(** The transaction [writeHead] picks is the last one of the buffer, the
    empty transaction when there is none. *)
Lemma head_is_last (txs : list Transaction) :
  (if (0 <? length txs)%nat
   then nth (length txs - 1) txs emptyTransaction
   else emptyTransaction) = last txs emptyTransaction.
Proof.
  induction txs as [ | tx rest _] using rev_ind; [reflexivity | ].
  rewrite last_last, length_app; simpl.
  replace (0 <? length rest + 1)%nat with true
    by (symmetry; apply Nat.ltb_lt; lia).
  replace (length rest + 1 - 1)%nat with (length rest) by lia.
  rewrite app_nth2 by lia. rewrite Nat.sub_diag. reflexivity.
Qed.

Lemma writeHead_exec was w :
  exec writeHead was w =
  exec (call (DbPut headTxKey
               (hashBytes (txHash (last (transactions was) emptyTransaction))))) was w.
Proof. unfold writeHead. exec_all. rewrite head_is_last. reflexivity. Qed.

Lemma putTransactions_exec batch txs was w :
  exists t err w1,
    exec (putTransactions batch txs) was w = (t, Some (err, was), w1) /\
    dbPuts t = [].
Proof.
  revert w; induction txs as [ | tx rest IH]; intros w; simpl.
  - exists [], None, w. split; reflexivity.
  - destruct (EncodeTransaction tx) as [data [e | ]].
    + exists [], (Some e), w. split; reflexivity.
    + exec_all.
      destruct (handle (BatchPut batch (hashBytes (txHash tx)) data) w) as [[e | ] w1] eqn:E;
        simpl.
      * eexists _, _, _. split; reflexivity.
      * destruct (IH w1) as (t & err & w2 & -> & Ht).
        eexists _, _, _. split; [reflexivity | ]. simpl. exact Ht.
Qed.

Lemma putReceipts_exec batch rs was w :
  exists t err w1,
    exec (putReceipts batch rs) was w = (t, Some (err, was), w1) /\
    dbPuts t = [].
Proof.
  revert w; induction rs as [ | r rest IH]; intros w; simpl.
  - exists [], None, w. split; reflexivity.
  - destruct (EncodeReceiptForStorage r) as [data [e | ]].
    + exists [], (Some e), w. split; reflexivity.
    + exec_all.
      destruct (handle (BatchPut batch (receiptsPrefix ++ hashBytes (TxHash r)) data) w)
        as [[e | ] w1] eqn:E; simpl.
      * eexists _, _, _. split; reflexivity.
      * destruct (IH w1) as (t & err & w2 & -> & Ht).
        eexists _, _, _. split; [reflexivity | ]. simpl. exact Ht.
Qed.

Lemma writeTransactions_exec was w :
  exists t err w1,
    exec writeTransactions was w = (t, Some (err, was), w1) /\ dbPuts t = [].
Proof.
  unfold writeTransactions. exec_all.
  destruct (handle DbNewBatch w) as [batch w1]; simpl.
  destruct (putTransactions_exec batch (transactions was) was w1)
    as (t & err & w2 & -> & Ht).
  destruct err as [e | ].
  - exec_all. eexists _, _, _. split; [reflexivity | ].
    simpl. rewrite !dbPuts_app, Ht. reflexivity.
  - exec_all. eexists _, _, _. split; [reflexivity | ].
    simpl. rewrite !dbPuts_app, Ht. reflexivity.
Qed.

Lemma writeReceipts_exec was w :
  exists t err w1,
    exec writeReceipts was w = (t, Some (err, was), w1) /\ dbPuts t = [].
Proof.
  unfold writeReceipts. exec_all.
  destruct (handle DbNewBatch w) as [batch w1]; simpl.
  destruct (putReceipts_exec batch (receipts was) was w1)
    as (t & err & w2 & -> & Ht).
  destruct err as [e | ].
  - exec_all. eexists _, _, _. split; [reflexivity | ].
    simpl. rewrite !dbPuts_app, Ht. reflexivity.
  - exec_all. eexists _, _, _. split; [reflexivity | ].
    simpl. rewrite !dbPuts_app, Ht. reflexivity.
Qed.

(** A stage never panics, never touches the session, and writes single
    keys only in [writeRoot] and [writeHead]. *)
Lemma stage_exec st root was w :
  exists t root1 err w1,
    exec (commitStep st root) was w = (t, Some ((root1, err), was), w1) /\
    (st <> StateFinalize -> root1 = root) /\
    dbPuts t = stagePuts st root was.
Proof.
  destruct st; unfold commitStep.
  - exec_all. destruct (handle (StateCommit true) w) as [[root1 err] w1]; simpl.
    eexists _, _, _, _. split; [reflexivity | ]. split; [congruence | reflexivity].
  - exec_all. eexists _, _, _, _. split; [reflexivity | ]. split; reflexivity.
  - unfold writeRoot. exec_all.
    eexists _, _, _, _. split; [reflexivity | ]. split; reflexivity.
  - rewrite exec_bind, writeHead_exec. exec_all.
    eexists _, _, _, _. split; [reflexivity | ]. split; reflexivity.
  - rewrite exec_bind.
    destruct (writeTransactions_exec was w) as (t & err & w1 & -> & Ht).
    exec_all. eexists _, _, _, _. split; [reflexivity | ].
    split; [reflexivity | ]. rewrite app_nil_r. exact Ht.
  - rewrite exec_bind.
    destruct (writeReceipts_exec was w) as (t & err & w1 & -> & Ht).
    exec_all. eexists _, _, _, _. split; [reflexivity | ].
    split; [reflexivity | ]. rewrite app_nil_r. exact Ht.
Qed.

(** A stage that wraps a body [p] runs like [p]. *)
Lemma stage_of_body (p : M (option error)) (root : Hash) was w t err was1 w1 :
  exec p was w = (t, Some (err, was1), w1) ->
  exec (err <- p ;; ret (root, err)) was w = (t, Some ((root, err), was1), w1).
Proof.
  intros Hp. rewrite exec_bind, Hp. exec_all. rewrite app_nil_r. reflexivity.
Qed.

Ltac finish_pipeline :=
  repeat (eapply pipeline_next; [eassumption | ]);
  first [ eapply pipeline_abort; eassumption | apply pipeline_end ].

(** [Commit] is the pipeline of the six stages, on an unchanged session. *)
Lemma Commit_exec was w :
  exists t log root w1,
    pipeline handle commitStages zeroHash was w t log root was w1 /\
    exec Commit was w = (t, Some (commitResult log root, was), w1) /\
    fst (fst (handle (StateCommit true) w)) = root.
Proof.
  unfold Commit, commitStages.
  (* state finalize *)
  rewrite exec_bind, exec_call.
  destruct (handle (StateCommit true) w) as [[root e1] w1] eqn:E1; cbn [fst snd].
  assert (S1 : exec (commitStep StateFinalize zeroHash) was w
               = ([Ev (StateCommit true) (root, e1)], Some ((root, e1), was), w1))
    by (unfold commitStep; rewrite exec_call, E1; reflexivity).
  cbn beta iota zeta.
  destruct e1 as [e | ].
  { exec_all. eexists _, _, _, _. split; [finish_pipeline | split; reflexivity]. }
  (* trie flush *)
  rewrite exec_bind.
  pose proof (exec_call (TrieDBCommit root true) was w1) as B2.
  destruct (handle (TrieDBCommit root true) w1) as [e2 w2]; cbn [fst snd] in B2.
  pose proof (stage_of_body _ root _ _ B2 : exec (commitStep TrieFlush root) was w1 = _) as S2.
  rewrite B2; cbn beta iota zeta.
  destruct e2 as [e | ].
  { exec_all. eexists _, _, _, _. split; [finish_pipeline | split; reflexivity]. }
  (* root pointer *)
  rewrite exec_bind.
  pose proof (exec_call (DbPut rootKey (hashBytes root)) was w2) as B3.
  destruct (handle (DbPut rootKey (hashBytes root)) w2) as [e3 w3]; cbn [fst snd] in B3.
  pose proof (stage_of_body _ root _ _ B3 : exec (commitStep RootWrite root) was w2 = _) as S3.
  unfold writeRoot at 1. rewrite B3; cbn beta iota zeta.
  destruct e3 as [e | ].
  { exec_all. eexists _, _, _, _. split; [finish_pipeline | split; reflexivity]. }
  (* head pointer *)
  rewrite exec_bind.
  destruct (exec writeHead was w3) as [[t4 r4] w4] eqn:B4.
  pose proof B4 as B4'. rewrite writeHead_exec, exec_call in B4'.
  injection B4' as <- <- <-.
  pose proof (stage_of_body _ root _ _ B4 : exec (commitStep HeadWrite root) was w3 = _) as S4.
  cbn beta iota zeta.
  destruct (fst (handle _ w3)) as [e | ].
  { exec_all. eexists _, _, _, _. split; [finish_pipeline | split; reflexivity]. }
  (* transaction batch *)
  rewrite exec_bind.
  destruct (writeTransactions_exec was (snd (handle
    (DbPut headTxKey (hashBytes (txHash (last (transactions was) emptyTransaction)))) w3)))
    as (t5 & e5 & w5 & B5 & _).
  pose proof (stage_of_body _ root _ _ B5 : exec (commitStep TxWrite root) was _ = _) as S5.
  rewrite B5; cbn beta iota zeta.
  destruct e5 as [e | ].
  { exec_all. eexists _, _, _, _. split; [finish_pipeline | ].
    rewrite !app_nil_r. split; reflexivity. }
  (* receipt batch *)
  rewrite exec_bind.
  destruct (writeReceipts_exec was w5) as (t6 & e6 & w6 & B6 & _).
  pose proof (stage_of_body _ root _ _ B6 : exec (commitStep ReceiptWrite root) was _ = _) as S6.
  rewrite B6; cbn beta iota zeta.
  destruct e6 as [e | ].
  { exec_all. eexists _, _, _, _. split; [finish_pipeline | ].
    rewrite !app_nil_r. split; reflexivity. }
  exec_all. eexists _, _, _, _. split; [finish_pipeline | ].
  rewrite !app_nil_r. split; reflexivity.
Qed.

(** *** [Reset] and [ApplyTransaction], path by path *)

Lemma Reset_exec root was w t r w1 :
  exec (Reset root) was w = (t, r, w1) ->
  match fst (handle (StateReset root) w) with
  | Some e => r = Some (Some e, was)
  | None =>
      r = Some (None,
                mkWAS (signer was) (chainConfig was) (vmConfig was) (gasLimit was)
                      0 [] [] [] (Some 0) (Some (gasLimit was)))
  end.
Proof.
  unfold Reset. exec_all.
  destruct (handle (StateReset root) w) as [[e | ] w2]; cbn [fst snd];
    exec_all; intros H; injection H as <- <- <-; reflexivity.
Qed.

Lemma ApplyTransaction_outcome tx ti blockHash was w t r w1 :
  exec (ApplyTransaction tx ti blockHash) was w = (t, r, w1) ->
  match snd (AsMessage tx (signer was)) with
  | Some e => t = [] /\ r = Some (Some e, was)
  | None =>
      exists res, engineAnswers t = [res] /\
        match mrErr res, totalUsedGas was with
        | Some e, _ => r = Some (Some e, setGp (storePool (gp was) (mrPool res)) was)
        | None, None => r = None
        | None, Some total =>
            exists was1 receipt,
              r = Some (None, was1) /\
              receiptOf tx (fst (AsMessage tx (signer was))) res total receipt /\
              appended tx res total receipt was was1
        end
  end.
Proof.
  unfold ApplyTransaction. exec_all.
  destruct (AsMessage tx (signer was)) as [msg [e | ]]; cbn [fst snd].
  - exec_all. intros H; injection H as <- <- <-. split; reflexivity.
  - exec_all.
    destruct (handle (StatePrepare (txHash tx) blockHash ti) w) as [[] w2];
      cbn [fst snd].
    exec_all.
    destruct (handle (ApplyMessage (newContext msg blockHash) (chainConfig was)
                        (vmConfig was) msg (gp was)) w2) as [res w3]; cbn [fst snd].
    exec_all.
    destruct (mrErr res) as [e | ] eqn:Eerr.
    + exec_all. intros H; injection H as <- <- <-.
      exists res. split; [reflexivity | ]. rewrite Eerr. reflexivity.
    + exec_all. cbn [totalUsedGas setGp].
      destruct (totalUsedGas was) as [total | ] eqn:Etot; cbn [deref].
      * exec_all. cbn [totalUsedGas setTotalUsedGas setGp deref]. exec_all.
        intros H; injection H as <- <- <-.
        exists res. split; [reflexivity | ]. rewrite Eerr.
        eexists _, _. split; [reflexivity | ].
        split; cycle 1.
        { unfold appended, SetUint64. cbn.
          repeat split; reflexivity. }
        { unfold receiptOf, SetUint64, newContext.
          destruct (To msg); cbn; repeat split; reflexivity. }
      * exec_all. intros H; injection H as <- <- <-.
        exists res. split; [reflexivity | ]. rewrite Eerr. reflexivity.
Qed.

(** *** Pipelines *)

(** A pipeline either ran every stage without error, or stopped at the
    first stage that failed, leaving the stages after it out. *)
Lemma pipeline_shape stages root was w t log root1 was1 w1 :
  pipeline handle stages root was w t log root1 was1 w1 ->
  (map fst log = stages /\ Forall succeeded log /\ firstError log = None) \/
  (exists done st e rest,
      log = done ++ [(st, Some e)] /\ Forall succeeded done /\
      stages = map fst done ++ st :: rest /\ firstError log = Some e).
Proof.
  induction 1 as [root was w
                 | st rest root was w t root1 e was1 w1 Hst
                 | st rest root was w t root1 was1 w1 t' log root2 was2 w2 Hst Hrest IH].
  - left. repeat split. constructor.
  - right. exists [], st, e, rest. repeat split. constructor.
  - destruct IH as [(Hm & Hall & Hf) | (done & st' & e & rest' & -> & Hall & -> & Hf)].
    + left. simpl. rewrite Hm. repeat split; [ | exact Hf].
      constructor; [reflexivity | exact Hall].
    + right. exists ((st, None) :: done), st', e, rest'. simpl.
      repeat split; [ | exact Hf]. constructor; [reflexivity | exact Hall].
Qed.

(** After the state is finalized the root is handed on unchanged, the
    session is never touched, and the single-key writes are those of the
    stages that ran. *)
Lemma pipeline_frame stages root was w t log root1 was1 w1 :
  pipeline handle stages root was w t log root1 was1 w1 ->
  ~ In StateFinalize stages ->
  root1 = root /\ was1 = was /\
  dbPuts t = flat_map (fun st => stagePuts st root was) (map fst log).
Proof.
  induction 1 as [root was w
                 | st rest root was w t root1 e was1 w1 Hst
                 | st rest root was w t root1 was1 w1 t' log root2 was2 w2 Hst Hrest IH];
    intros Hnot.
  - repeat split.
  - destruct (stage_exec st root was w) as (t0 & r0 & e0 & w0 & Hex & Hroot & Hputs).
    rewrite Hex in Hst. injection Hst as <- <- <- <- <-.
    simpl. rewrite app_nil_r. repeat split; [ | exact Hputs].
    apply Hroot. intros ->. apply Hnot. left; reflexivity.
  - destruct (stage_exec st root was w) as (t0 & r0 & e0 & w0 & Hex & Hroot & Hputs).
    rewrite Hex in Hst. injection Hst as <- <- <- <- <-.
    assert (r0 = root) as -> by (apply Hroot; intros ->; apply Hnot; left; reflexivity).
    destruct IH as (-> & -> & Hputs'); [intros Hin; apply Hnot; right; exact Hin | ].
    simpl. rewrite dbPuts_app, Hputs, Hputs'. repeat split.
Qed.

(** *** Arithmetic of the counters *)

Lemma wrapInt_small z : - 2 ^ 63 <= z < 2 ^ 63 -> wrapInt z = z.
Proof.
  intros Hz. unfold wrapInt. rewrite Z.mod_small; lia.
Qed.

Lemma wrapInt_succ z : wrapInt (wrapInt z + 1) = wrapInt (z + 1).
Proof.
  unfold wrapInt.
  replace ((z + 2 ^ 63) mod 2 ^ 64 - 2 ^ 63 + 1 + 2 ^ 63)
    with ((z + 2 ^ 63) mod 2 ^ 64 + 1) by lia.
  rewrite Z.add_mod_idemp_l by lia.
  f_equal. f_equal. lia.
Qed.

Lemma sumGas_snoc hist a : sumGas (hist ++ [a]) = sumGas hist + Z.of_N (apGas a).
Proof.
  unfold sumGas. induction hist as [ | b hist IH]; simpl; [lia | ].
  rewrite IH. lia.
Qed.

(** *** The invariant of an epoch *)

Lemma epoch_invariant hist was w :
  InEpoch handle hist was w ->
  transactions was = map apTx hist /\
  map GasUsed (receipts was) = map apGas hist /\
  totalUsedGas was = Some (sumGas hist) /\
  txIndex was = wrapInt (Z.of_nat (length hist)).
Proof.
  induction 1 as [root was w t was1 w1 Hreset
                 | hist was w tx ti blockHash t was1 w1 Hin IH Happly
                 | hist was w tx ti blockHash t e was1 w1 Hin IH Happly
                 | hist was w t res was1 w1 Hin IH Hcommit].
  - apply Reset_exec in Hreset.
    destruct (fst (handle (StateReset root) w)); [discriminate | ].
    injection Hreset as ->. repeat split.
  - destruct IH as (Htx & Hgas & Htot & Hidx).
    apply ApplyTransaction_outcome in Happly.
    destruct (snd (AsMessage tx (signer was))); [destruct Happly; discriminate | ].
    destruct Happly as (res & Hans & Hres).
    destruct (mrErr res); [discriminate | ].
    rewrite Htot in Hres.
    destruct Hres as (was2 & receipt & Heq & Hrcpt & Happ).
    injection Heq as <-.
    destruct Hrcpt as (_ & _ & _ & Hused & _).
    destruct Happ as (Hi & Ht & Hr & _ & Hg & _).
    assert (Hgas' : traceGas t = mrGas res)
      by (unfold traceGas; rewrite Hans; simpl; lia).
    rewrite Ht, Hr, Hg, Hi, Htx, Hidx, !map_app, Hgas, length_app, sumGas_snoc.
    simpl. rewrite Hgas', Hused, wrapInt_succ.
    repeat split. f_equal. lia.
  - apply ApplyTransaction_outcome in Happly.
    destruct (snd (AsMessage tx (signer was))).
    + destruct Happly as (_ & Heq). injection Heq as _ <-. exact IH.
    + destruct Happly as (res & _ & Hres).
      destruct (mrErr res).
      * injection Hres as _ ->. exact IH.
      * destruct (totalUsedGas was); [ | discriminate].
        destruct Hres as (? & ? & Heq & _). discriminate.
  - destruct (Commit_exec was w) as (t0 & log & root & w2 & _ & Hex & _).
    rewrite Hex in Hcommit. injection Hcommit as _ _ <- _. exact IH.
Qed.

(** The single-key writes of [Commit]: the root pointer, then the head
    pointer; both are there when [Commit] returns no error. *)
Lemma Commit_puts was w t res was1 w1 :
  exec Commit was w = (t, Some (res, was1), w1) ->
  exists root n,
    dbPuts t
      = firstn n [(rootKey, hashBytes root);
                  (headTxKey,
                   hashBytes (txHash (last (transactions was) emptyTransaction)))] /\
    (snd res = None -> n = 2%nat /\ fst res = root).
Proof.
  intros H.
  destruct (Commit_exec was w) as (t0 & log & root & w2 & Hp & Hex & _).
  rewrite Hex in H. injection H as <- <- <- <-.
  exists root. unfold commitStages in Hp.
  inversion Hp as [ | st rest r0 s0 v0 t1 r1 e s1 v1 Hst
                    | st rest r0 s0 v0 t1 r1 s1 v1 t2 log2 r2 s2 v2 Hst Hrest]; subst.
  - destruct (stage_exec StateFinalize zeroHash was w)
      as (ta & ra & ea & wa & Hex' & _ & Hputs).
    rewrite Hex' in Hst. injection Hst as <-.
    exists 0%nat. split; [exact Hputs | ]. cbn. discriminate.
  - destruct (stage_exec StateFinalize zeroHash was w)
      as (ta & ra & ea & wa & Hex' & _ & Hputs).
    rewrite Hex' in Hst. injection Hst as <-. intros; subst.
    assert (Hnot : ~ In StateFinalize [TrieFlush; RootWrite; HeadWrite; TxWrite; ReceiptWrite])
      by (simpl; intros [ | [ | [ | [ | [ | []]]]]]; discriminate).
    destruct (pipeline_frame Hrest Hnot) as (-> & _ & Hputs2).
    rewrite dbPuts_app, Hputs, Hputs2. cbn [app stagePuts].
    destruct (pipeline_shape Hrest)
      as [(Hm & _ & Hf) | (done & st & e & rest & -> & _ & Hs & Hf)].
    + exists 2%nat. rewrite Hm. split; [reflexivity | ].
      unfold commitResult. cbn [firstError]. rewrite Hf. intros _. split; reflexivity.
    + exists (length (flat_map (fun st0 => stagePuts st0 r1 s1) (map fst (done ++ [(st, Some e)])))).
      split.
      * change [(rootKey, hashBytes r1);
                (headTxKey, hashBytes (txHash (last (transactions s1) emptyTransaction)))]
          with (flat_map (fun st0 => stagePuts st0 r1 s1)
                  [TrieFlush; RootWrite; HeadWrite; TxWrite; ReceiptWrite]).
        rewrite Hs, map_app. cbn [map fst].
        replace (map fst done ++ st :: rest) with ((map fst done ++ [st]) ++ rest)
          by (rewrite <- app_assoc; reflexivity).
        rewrite (flat_map_app _ (map fst done ++ [st]) rest).
        rewrite firstn_app, firstn_all, Nat.sub_diag, firstn_O, app_nil_r.
        reflexivity.
      * unfold commitResult. cbn [firstError]. rewrite Hf. cbn. discriminate.
Qed.

(** *** The statements of [Commit] do what the stages say *)

Lemma putTransactions_run batch txs was w :
  exists t err w1,
    exec (putTransactions batch txs) was w = (t, Some (err, was), w1) /\
    batchLoop batch (map transactionItem txs) t err.
Proof.
  revert w; induction txs as [ | tx rest IH]; intros w; simpl.
  - exists [], None, w. split; [reflexivity | constructor].
  - unfold transactionItem at 1.
    destruct (EncodeTransaction tx) as [data [e | ]].
    + exists [], (Some e), w. split; [reflexivity | constructor].
    + exec_all.
      destruct (handle (BatchPut batch (hashBytes (txHash tx)) data) w) as [[e | ] w1];
        cbn [fst snd].
      * eexists _, _, _. split; [reflexivity | ]. apply loop_put_failed.
      * destruct (IH w1) as (t & err & w2 & -> & Hloop).
        eexists _, _, _. split; [reflexivity | ].
        cbn [app]. apply loop_put. exact Hloop.
Qed.

Lemma putReceipts_run batch rs was w :
  exists t err w1,
    exec (putReceipts batch rs) was w = (t, Some (err, was), w1) /\
    batchLoop batch (map receiptItem rs) t err.
Proof.
  revert w; induction rs as [ | r rest IH]; intros w; simpl.
  - exists [], None, w. split; [reflexivity | constructor].
  - unfold receiptItem at 1.
    destruct (EncodeReceiptForStorage r) as [data [e | ]].
    + exists [], (Some e), w. split; [reflexivity | constructor].
    + exec_all.
      destruct (handle (BatchPut batch (receiptsPrefix ++ hashBytes (TxHash r)) data) w)
        as [[e | ] w1]; cbn [fst snd].
      * eexists _, _, _. split; [reflexivity | ]. apply loop_put_failed.
      * destruct (IH w1) as (t & err & w2 & -> & Hloop).
        eexists _, _, _. split; [reflexivity | ].
        cbn [app]. apply loop_put. exact Hloop.
Qed.

Lemma writeTransactions_run was w :
  exists t err w1,
    exec writeTransactions was w = (t, Some (err, was), w1) /\
    batchRun (map transactionItem (transactions was)) t err.
Proof.
  unfold writeTransactions. exec_all.
  destruct (handle DbNewBatch w) as [batch w1]; cbn [fst snd].
  destruct (putTransactions_run batch (transactions was) was w1)
    as (t & err & w2 & -> & Hloop).
  destruct err as [e | ]; exec_all.
  - eexists _, _, _. split; [reflexivity | ].
    cbn [app]. rewrite app_nil_r. apply batch_dropped. exact Hloop.
  - eexists _, _, _. split; [reflexivity | ].
    cbn [app]. apply batch_written. exact Hloop.
Qed.

Lemma writeReceipts_run was w :
  exists t err w1,
    exec writeReceipts was w = (t, Some (err, was), w1) /\
    batchRun (map receiptItem (receipts was)) t err.
Proof.
  unfold writeReceipts. exec_all.
  destruct (handle DbNewBatch w) as [batch w1]; cbn [fst snd].
  destruct (putReceipts_run batch (receipts was) was w1)
    as (t & err & w2 & -> & Hloop).
  destruct err as [e | ]; exec_all.
  - eexists _, _, _. split; [reflexivity | ].
    cbn [app]. rewrite app_nil_r. apply batch_dropped. exact Hloop.
  - eexists _, _, _. split; [reflexivity | ].
    cbn [app]. apply batch_written. exact Hloop.
Qed.

(** Each statement of [Commit] makes the calls of its stage, and leaves the
    session alone. *)
Lemma step_run st root was w t root1 err was1 w1 :
  exec (commitStep st root) was w = (t, Some ((root1, err), was1), w1) ->
  stageRun st root was t root1 err /\ was1 = was.
Proof.
  destruct st; unfold commitStep, stageRun.
  - exec_all. destruct (handle (StateCommit true) w) as [[r e] w0]; cbn [fst snd].
    intros H; injection H as <- <- <- <- _. split; reflexivity.
  - exec_all. intros H; injection H as <- <- <- <- _. repeat split.
  - unfold writeRoot. exec_all. intros H; injection H as <- <- <- <- _. repeat split.
  - rewrite exec_bind, writeHead_exec. exec_all.
    intros H; injection H as <- <- <- <- _. repeat split.
  - rewrite exec_bind.
    destruct (writeTransactions_run was w) as (t0 & e0 & w0 & -> & Hrun).
    exec_all. rewrite app_nil_r. intros H; injection H as <- <- <- <- _.
    repeat split. exact Hrun.
  - rewrite exec_bind.
    destruct (writeReceipts_run was w) as (t0 & e0 & w0 & -> & Hrun).
    exec_all. rewrite app_nil_r. intros H; injection H as <- <- <- <- _.
    repeat split. exact Hrun.
Qed.

Lemma pipeline_stagesRun stages root was w t log root1 was1 w1 :
  pipeline handle stages root was w t log root1 was1 w1 ->
  stagesRun stages root was t log root1 /\ was1 = was.
Proof.
  induction 1 as [root was w
                 | st rest root was w t root1 e was1 w1 Hst
                 | st rest root was w t root1 was1 w1 t' log root2 was2 w2 Hst Hrest IH].
  - split; [constructor | reflexivity].
  - destruct (step_run _ _ _ _ Hst) as (Hrun & ->).
    split; [apply stages_abort; exact Hrun | reflexivity].
  - destruct (step_run _ _ _ _ Hst) as (Hrun & ->).
    destruct IH as (Hruns & ->).
    split; [eapply stages_next; eassumption | reflexivity].
Qed.

(** *** The properties of the specification *)

(** C1. [Commit] runs the stages state finalize, trie flush, root
    pointer, head pointer, transaction batch, receipt batch in this order.
    Its calls are those of the stages, as [stageRun] tells them: the state
    commit; the trie commit of the root; the put of the root under the
    root key; the put of the head hash under the head key; a batch with
    the transactions, put and written; a batch with the receipts, put and
    written.  The first stage that fails is the last one that runs, its
    error is the error of [Commit], and [Commit] returns the root of the
    state finalize stage if and only if every stage ran and none failed. *)
Theorem Commit_runs_ordered_stages was w :
  exists t log root w1,
    exec Commit was w = (t, Some (commitResult log root, was), w1) /\
    stagesRun commitStages zeroHash was t log root /\
    fst (fst (handle (StateCommit true) w)) = root /\
    (snd (commitResult log root) = None <->
     map fst log = commitStages /\ Forall succeeded log) /\
    (snd (commitResult log root) = None -> fst (commitResult log root) = root) /\
    (forall e, snd (commitResult log root) = Some e ->
       exists done st rest,
         log = done ++ [(st, Some e)] /\ Forall succeeded done /\
         commitStages = map fst done ++ st :: rest).
Proof.
  destruct (Commit_exec was w) as (t & log & root & w1 & Hp & Hex & Hroot).
  exists t, log, root, w1.
  split; [exact Hex | ].
  split; [apply (pipeline_stagesRun Hp) | ].
  split; [exact Hroot | ].
  unfold commitResult.
  destruct (pipeline_shape Hp)
    as [(Hm & Hall & Hf) | (done & st & e & rest & Hlog & Hall & Hs & Hf)];
    rewrite Hf; cbn [fst snd].
  - split; [ | split].
    + split; [intros _; split; assumption | reflexivity].
    + reflexivity.
    + discriminate.
  - split; [ | split].
    + split; [discriminate | ].
      intros [_ Hok]. rewrite Hlog in Hok.
      apply Forall_app in Hok. destruct Hok as [_ Hlast].
      inversion Hlast as [ | x l Hx _]. discriminate Hx.
    + discriminate.
    + intros e' He'. injection He' as <-.
      exists done, st, rest. repeat split; assumption.
Qed.

(** The batches make no single-key write. *)
Lemma dbPutResults_app t t' :
  dbPutResults (t ++ t') = dbPutResults t ++ dbPutResults t'.
Proof.
  induction t as [ | ev t IH]; simpl; [reflexivity | ].
  destruct (dbPutResult ev); simpl; rewrite IH; reflexivity.
Qed.

Lemma batchLoop_dbPutResults batch items t err :
  batchLoop batch items t err -> dbPutResults t = [].
Proof.
  induction 1; simpl; try reflexivity. assumption.
Qed.

Lemma batchRun_dbPutResults items t err :
  batchRun items t err -> dbPutResults t = [].
Proof.
  intros [batch t0 e Hloop | batch t0 err0 Hloop]; simpl.
  - exact (batchLoop_dbPutResults Hloop).
  - rewrite dbPutResults_app, (batchLoop_dbPutResults Hloop). reflexivity.
Qed.

(** The single-key writes of the batch stages, whatever their outcome. *)
Lemma batch_stages_dbPutResults was root t log root1 :
  stagesRun [TxWrite; ReceiptWrite] root was t log root1 ->
  dbPutResults t = [] /\ root1 = root.
Proof.
  intros H.
  inversion H as [ | st rest r0 s0 t1 r1 e Hst
                   | st rest r0 s0 t1 r1 t2 log2 r2 Hst Hrest]; subst;
    cbn [stageRun] in Hst; destruct Hst as (Hrun & ->).
  - split; [exact (batchRun_dbPutResults Hrun) | reflexivity].
  - rewrite dbPutResults_app, (batchRun_dbPutResults Hrun).
    inversion Hrest as [ | st rest r0 s0 t3 r3 e Hst'
                         | st rest r0 s0 t3 r3 t4 log4 r4 Hst' Hrest']; subst;
      cbn [stageRun] in Hst'; destruct Hst' as (Hrun' & ->).
    + split; [exact (batchRun_dbPutResults Hrun') | reflexivity].
    + inversion Hrest'; subst.
      rewrite dbPutResults_app, (batchRun_dbPutResults Hrun'). split; reflexivity.
Qed.

(** The single-key writes of [Commit], with their answers: none when the
    state could not be finalized or flushed; the root pointer alone when
    its write fails; else the root pointer and then the head pointer. *)
Lemma Commit_dbPutResults was w t res was1 w1 :
  exec Commit was w = (t, Some (res, was1), w1) ->
  exists root,
    (dbPutResults t = [] /\ snd res <> None) \/
    (exists e,
        dbPutResults t = [(rootKey, hashBytes root, Some e)] /\ snd res = Some e) \/
    (exists err,
        dbPutResults t
        = [(rootKey, hashBytes root, None);
           (headTxKey,
            hashBytes (txHash (last (transactions was) emptyTransaction)), err)] /\
        (forall e, err = Some e -> snd res = Some e) /\
        (snd res = None -> err = None /\ fst res = root)).
Proof.
  intros H.
  destruct (Commit_exec was w) as (t0 & log & root & w2 & Hp & Hex & _).
  rewrite Hex in H. injection H as <- <- _ _.
  destruct (pipeline_stagesRun Hp) as (Hruns & _). clear Hp Hex.
  exists root. unfold commitStages in Hruns. unfold commitResult.
  (* state finalize *)
  inversion Hruns as [ | st rest r0 s0 t1 r1 e Hst
                       | st rest r0 s0 t1 r1 t2 log2 r2 Hst Hrest]; subst;
    cbn [stageRun] in Hst; subst.
  { left. cbn. split; [reflexivity | discriminate]. }
  clear Hruns.
  (* trie flush *)
  inversion Hrest as [ | st rest r0 s0 t3 r3 e Hst
                       | st rest r0 s0 t3 r3 t4 log4 r4 Hst Hrest']; subst;
    cbn [stageRun] in Hst; destruct Hst as (-> & ->).
  { left. cbn. split; [reflexivity | discriminate]. }
  clear Hrest.
  (* root pointer *)
  inversion Hrest' as [ | st rest r0 s0 t5 r5 e Hst
                        | st rest r0 s0 t5 r5 t6 log6 r6 Hst Hrest]; subst;
    cbn [stageRun] in Hst; destruct Hst as (-> & ->).
  { right; left. exists e. cbn. split; reflexivity. }
  clear Hrest'.
  (* head pointer *)
  inversion Hrest as [ | st rest r0 s0 t7 r7 e Hst
                       | st rest r0 s0 t7 r7 t8 log8 r8 Hst Hrest']; subst;
    cbn [stageRun] in Hst; destruct Hst as (-> & ->).
  { right; right. exists (Some e). cbn. split; [reflexivity | ].
    split; [intros e' He'; exact He' | discriminate]. }
  clear Hrest.
  (* the batches *)
  destruct (batch_stages_dbPutResults Hrest') as (Hputs & ->).
  right; right. exists None.
  rewrite !dbPutResults_app, Hputs. cbn.
  split; [reflexivity | ]. split; [discriminate | ].
  destruct (firstError log8); cbn; [discriminate | ].
  intros _. split; reflexivity.
Qed.

(** C2, as amended.  In an epoch whose successful applies are [hist],
    whenever the root pointer of [Commit] was written without error, the
    next single-key write is to [headTxKey], with the hash of the last
    transaction of [hist]; when [hist] is empty it is the hash of the
    empty transaction [Transaction{}], whatever that hash is, and not a
    zero value of its own.  The write is made before anything goes to a
    batch, and its error is the error of [Commit]. *)
Theorem Commit_writes_head_pointer hist was w t res was1 w1 :
  InEpoch handle hist was w ->
  exec Commit was w = (t, Some (res, was1), w1) ->
  exists root,
    (dbPutResults t = [] /\ snd res <> None) \/
    (exists e,
        dbPutResults t = [(rootKey, hashBytes root, Some e)] /\ snd res = Some e) \/
    (exists err,
        dbPutResults t
        = [(rootKey, hashBytes root, None);
           (headTxKey,
            hashBytes (txHash (last (map apTx hist) emptyTransaction)), err)] /\
        (forall e, err = Some e -> snd res = Some e) /\
        (snd res = None -> err = None /\ fst res = root)).
Proof.
  intros Hin Hex.
  destruct (epoch_invariant Hin) as (Htx & _).
  rewrite <- Htx. exact (Commit_dbPutResults _ _ Hex).
Qed.

(** C3. In a session that has been reset, a transaction whose execution
    the engine reports as reverted ([failed] set, no error) is applied:
    [ApplyTransaction] returns no error, the receipt appended has the
    failed status and the gas the engine reported, that gas is added to
    the cumulative gas, and the transaction, the receipt and the receipt's
    logs take their slots in the buffers. *)
Theorem reverted_transaction_is_applied tx ti blockHash was w t r w1 res total :
  exec (ApplyTransaction tx ti blockHash) was w = (t, r, w1) ->
  engineAnswers t = [res] ->
  mrErr res = None ->
  mrFailed res = true ->
  totalUsedGas was = Some total ->
  exists was1 receipt,
    r = Some (None, was1) /\
    Status receipt = ReceiptStatusFailed /\
    GasUsed receipt = mrGas res /\
    CumulativeGasUsed receipt = Uint64 (total + Z.of_N (mrGas res)) /\
    totalUsedGas was1 = Some (total + Z.of_N (mrGas res)) /\
    transactions was1 = transactions was ++ [tx] /\
    receipts was1 = receipts was ++ [receipt] /\
    allLogs was1 = allLogs was ++ Logs receipt /\
    txIndex was1 = wrapInt (txIndex was + 1).
Proof.
  intros Hex Hans Herr Hfailed Htot.
  apply ApplyTransaction_outcome in Hex.
  destruct (snd (AsMessage tx (signer was))).
  - destruct Hex as (-> & _). discriminate Hans.
  - destruct Hex as (res' & Hans' & Hres).
    rewrite Hans in Hans'. injection Hans' as <-.
    rewrite Herr, Htot in Hres.
    destruct Hres as (was1 & receipt & -> & Hrcpt & Happ).
    destruct Hrcpt as (Hstatus & Hcum & _ & Hused & _).
    destruct Happ as (Hi & Ht & Hr & Hl & Hg & _).
    rewrite Hfailed in Hstatus.
    exists was1, receipt. repeat split; assumption.
Qed.

(** The same slots are taken when the execution does not revert; only the
    status of the receipt differs. *)
Lemma completed_transaction_is_applied tx ti blockHash was w t r w1 res total :
  exec (ApplyTransaction tx ti blockHash) was w = (t, r, w1) ->
  engineAnswers t = [res] ->
  mrErr res = None ->
  mrFailed res = false ->
  totalUsedGas was = Some total ->
  exists was1 receipt,
    r = Some (None, was1) /\
    Status receipt = ReceiptStatusSuccessful /\
    GasUsed receipt = mrGas res /\
    CumulativeGasUsed receipt = Uint64 (total + Z.of_N (mrGas res)) /\
    totalUsedGas was1 = Some (total + Z.of_N (mrGas res)) /\
    transactions was1 = transactions was ++ [tx] /\
    receipts was1 = receipts was ++ [receipt] /\
    allLogs was1 = allLogs was ++ Logs receipt /\
    txIndex was1 = wrapInt (txIndex was + 1).
Proof.
  intros Hex Hans Herr Hfailed Htot.
  apply ApplyTransaction_outcome in Hex.
  destruct (snd (AsMessage tx (signer was))).
  - destruct Hex as (-> & _). discriminate Hans.
  - destruct Hex as (res' & Hans' & Hres).
    rewrite Hans in Hans'. injection Hans' as <-.
    rewrite Herr, Htot in Hres.
    destruct Hres as (was1 & receipt & -> & Hrcpt & Happ).
    destruct Hrcpt as (Hstatus & Hcum & _ & Hused & _).
    destruct Happ as (Hi & Ht & Hr & Hl & Hg & _).
    rewrite Hfailed in Hstatus.
    exists was1, receipt. repeat split; assumption.
Qed.

(** Before the first [Reset] the cumulative gas is a nil pointer: an
    apply that gets past the engine panics. *)
Lemma ApplyTransaction_before_Reset tx ti blockHash was w t r w1 res :
  exec (ApplyTransaction tx ti blockHash) was w = (t, r, w1) ->
  engineAnswers t = [res] ->
  mrErr res = None ->
  totalUsedGas was = None ->
  r = None.
Proof.
  intros Hex Hans Herr Htot.
  apply ApplyTransaction_outcome in Hex.
  destruct (snd (AsMessage tx (signer was))).
  - destruct Hex as (-> & _). discriminate Hans.
  - destruct Hex as (res' & Hans' & Hres).
    rewrite Hans in Hans'. injection Hans' as <-.
    rewrite Herr, Htot in Hres. exact Hres.
Qed.

(** C4. When [ApplyTransaction] returns an error, the error is the one of
    the signature derivation or the one of the engine, and the three
    buffers, the cumulative gas and the transaction index are those of
    before the call. *)
Theorem ApplyTransaction_error_keeps_buffers tx ti blockHash was w t e was1 w1 :
  exec (ApplyTransaction tx ti blockHash) was w = (t, Some (Some e, was1), w1) ->
  (snd (AsMessage tx (signer was)) = Some e \/
   exists res, engineAnswers t = [res] /\ mrErr res = Some e) /\
  transactions was1 = transactions was /\
  receipts was1 = receipts was /\
  allLogs was1 = allLogs was /\
  totalUsedGas was1 = totalUsedGas was /\
  txIndex was1 = txIndex was.
Proof.
  intros Hex. apply ApplyTransaction_outcome in Hex.
  destruct (snd (AsMessage tx (signer was))) as [e0 | ].
  - destruct Hex as (_ & Heq). injection Heq as -> ->.
    repeat split. left; reflexivity.
  - destruct Hex as (res & Hans & Hres).
    destruct (mrErr res) as [e0 | ] eqn:Eerr.
    + injection Hres as -> ->. repeat split.
      right. exists res. split; assumption.
    + destruct (totalUsedGas was); [ | discriminate].
      destruct Hres as (? & ? & Heq & _). discriminate.
Qed.

(** C5. In an epoch with [N] successful applies (a slice holds fewer
    than 2^63 elements), the transaction index, the length of the
    transactions buffer and the length of the receipts buffer are [N]. *)
Theorem epoch_counts hist was w :
  InEpoch handle hist was w ->
  Z.of_nat (length hist) < 2 ^ 63 ->
  txIndex was = Z.of_nat (length hist) /\
  length (transactions was) = length hist /\
  length (receipts was) = length hist.
Proof.
  intros Hin Hbound.
  destruct (epoch_invariant Hin) as (Htx & Hgas & _ & Hidx).
  split; [ | split].
  - rewrite Hidx. apply wrapInt_small. lia.
  - rewrite Htx. apply length_map.
  - rewrite <- (length_map GasUsed), Hgas. apply length_map.
Qed.

(** C6, as amended.  [Reset] never panics.  When the state database
    rebinds to [root] without error, whatever the session was, the three
    buffers are empty, the gas pool is the configured limit, the
    cumulative gas and the transaction index are zero; when the rebind
    fails, [Reset] returns its error and the session is as before. *)
Theorem Reset_clears_on_success root was w :
  exists t err was1 w1,
    exec (Reset root) was w = (t, Some (err, was1), w1) /\
    err = fst (handle (StateReset root) w) /\
    match err with
    | None =>
        transactions was1 = [] /\ receipts was1 = [] /\ allLogs was1 = [] /\
        gp was1 = Some (gasLimit was) /\ gasLimit was1 = gasLimit was /\
        totalUsedGas was1 = Some 0 /\ txIndex was1 = 0
    | Some _ => was1 = was
    end.
Proof.
  destruct (exec (Reset root) was w) as [[t r] w1] eqn:Hex.
  pose proof (Reset_exec _ _ _ Hex) as H.
  destruct (fst (handle (StateReset root) w)) as [e | ]; subst r.
  - exists t, (Some e), was, w1. repeat split.
  - eexists t, None, _, w1. split; [reflexivity | ]. repeat split.
Qed.

(** C7. [Commit] never panics and leaves the session as it found it: the
    three buffers, the transaction index, the gas pool and the cumulative
    gas are unchanged. *)
Theorem Commit_keeps_session was w :
  exists t res was1 w1,
    exec Commit was w = (t, Some (res, was1), w1) /\
    transactions was1 = transactions was /\
    receipts was1 = receipts was /\
    allLogs was1 = allLogs was /\
    txIndex was1 = txIndex was /\
    gp was1 = gp was /\
    totalUsedGas was1 = totalUsedGas was.
Proof.
  destruct (Commit_exec was w) as (t & log & root & w1 & _ & Hex & _).
  exists t, (commitResult log root), was, w1. repeat split. exact Hex.
Qed.

(** C8. When [ApplyTransaction] returns no error and the message derived
    from the transaction has the transaction's recipient, the receipt
    appended carries [CreateAddress(origin, nonce)], with the origin of
    the execution context and the nonce of the transaction, when the
    recipient is empty, and the zero address otherwise. *)
Theorem receipt_contract_address tx ti blockHash was w t was1 w1 :
  exec (ApplyTransaction tx ti blockHash) was w = (t, Some (None, was1), w1) ->
  To (fst (AsMessage tx (signer was))) = Recipient tx ->
  exists receipt,
    receipts was1 = receipts was ++ [receipt] /\
    (Recipient tx = None ->
     ContractAddress receipt
       = CreateAddress
           (Origin (newContext (fst (AsMessage tx (signer was))) blockHash))
           (Nonce tx)) /\
    (Recipient tx <> None -> ContractAddress receipt = zeroAddress).
Proof.
  intros Hex Hto. apply ApplyTransaction_outcome in Hex.
  destruct (snd (AsMessage tx (signer was))).
  - destruct Hex as (_ & Heq). discriminate.
  - destruct Hex as (res & _ & Hres).
    destruct (mrErr res); [discriminate | ].
    destruct (totalUsedGas was); [ | discriminate].
    destruct Hres as (was2 & receipt & Heq & Hrcpt & Happ).
    injection Heq as <-.
    destruct Hrcpt as (_ & _ & _ & _ & Haddr).
    destruct Happ as (_ & _ & Hr & _).
    exists receipt. split; [exact Hr | ].
    rewrite Hto in Haddr. cbn [Origin newContext].
    destruct (Recipient tx); split; intros H; congruence.
Qed.

(** C9. In an epoch, the cumulative gas is the sum of the gas the engine
    reported for each successful apply, reverted or not, which is also
    the sum of the [GasUsed] of the receipts; a further successful apply
    adds the gas it used and so never lowers it. *)
Theorem cumulative_gas_is_sum hist was w :
  InEpoch handle hist was w ->
  totalUsedGas was = Some (sumGas hist) /\
  map GasUsed (receipts was) = map apGas hist /\
  forall tx ti blockHash t was1 w1,
    exec (ApplyTransaction tx ti blockHash) was w = (t, Some (None, was1), w1) ->
    exists total1,
      totalUsedGas was1 = Some total1 /\
      total1 = sumGas hist + Z.of_N (traceGas t) /\
      sumGas hist <= total1.
Proof.
  intros Hin.
  destruct (epoch_invariant Hin) as (_ & Hgas & Htot & _).
  split; [exact Htot | ]. split; [exact Hgas | ].
  intros tx ti blockHash t was1 w1 Hex.
  assert (Hin1 : InEpoch handle
                   (hist ++ [mkApplied tx (traceGas t) (traceReverted t)]) was1 w1)
    by (eapply epoch_applied; eassumption).
  destruct (epoch_invariant Hin1) as (_ & _ & Htot1 & _).
  rewrite sumGas_snoc in Htot1. cbn [apGas] in Htot1.
  eexists. split; [exact Htot1 | ]. split; [reflexivity | lia].
Qed.

(** C10. When [Commit] returns an error, the hash it returns with it is
    the zero hash. *)
Theorem Commit_error_returns_zero_hash was w t h e was1 w1 :
  exec Commit was w = (t, Some ((h, Some e), was1), w1) ->
  h = zeroHash.
Proof.
  intros Hex.
  destruct (Commit_exec was w) as (t0 & log & root & w2 & _ & Hex0 & _).
  rewrite Hex0 in Hex. injection Hex as _ Hres _ _.
  unfold commitResult in Hres.
  destruct (firstError log); congruence.
Qed.

(** *** The batches of [writeTransactions] and [writeReceipts] *)

Lemma batchPuts_app t t' : batchPuts (t ++ t') = batchPuts t ++ batchPuts t'.
Proof.
  induction t as [ | ev t IH]; simpl; [reflexivity | ].
  destruct (batchPut ev); simpl; rewrite IH; reflexivity.
Qed.

Lemma batchWrites_app t t' :
  batchWrites (t ++ t') = (batchWrites t + batchWrites t')%nat.
Proof. unfold batchWrites. rewrite filter_app, length_app. reflexivity. Qed.

Lemma putTransactions_batch batch txs was w :
  exists t err w1 n,
    exec (putTransactions batch txs) was w = (t, Some (err, was), w1) /\
    (n <= length txs)%nat /\
    batchPuts t = firstn n (map transactionEntry txs) /\
    batchWrites t = 0%nat /\
    (err = None -> n = length txs).
Proof.
  revert w; induction txs as [ | tx rest IH]; intros w; simpl.
  - exists [], None, w, 0%nat. repeat split. lia.
  - unfold transactionEntry at 1.
    destruct (EncodeTransaction tx) as [data [e | ]]; cbn [fst].
    + exists [], (Some e), w, 0%nat. repeat split; [lia | discriminate].
    + exec_all.
      destruct (handle (BatchPut batch (hashBytes (txHash tx)) data) w) as [[e | ] w1];
        cbn [fst snd].
      * eexists _, _, _, 1%nat. split; [reflexivity | ].
        repeat split; [lia | discriminate].
      * destruct (IH w1) as (t & err & w2 & n & -> & Hn & Hputs & Hwrites & Hall).
        eexists _, _, _, (S n). split; [reflexivity | ].
        cbn. rewrite Hputs. repeat split; [lia | exact Hwrites | ].
        intros He. rewrite (Hall He). reflexivity.
Qed.

Lemma putReceipts_batch batch rs was w :
  exists t err w1 n,
    exec (putReceipts batch rs) was w = (t, Some (err, was), w1) /\
    (n <= length rs)%nat /\
    batchPuts t = firstn n (map receiptEntry rs) /\
    batchWrites t = 0%nat /\
    (err = None -> n = length rs).
Proof.
  revert w; induction rs as [ | r rest IH]; intros w; simpl.
  - exists [], None, w, 0%nat. repeat split. lia.
  - unfold receiptEntry at 1.
    destruct (EncodeReceiptForStorage r) as [data [e | ]]; cbn [fst].
    + exists [], (Some e), w, 0%nat. repeat split; [lia | discriminate].
    + exec_all.
      destruct (handle (BatchPut batch (receiptsPrefix ++ hashBytes (TxHash r)) data) w)
        as [[e | ] w1]; cbn [fst snd].
      * eexists _, _, _, 1%nat. split; [reflexivity | ].
        repeat split; [lia | discriminate].
      * destruct (IH w1) as (t & err & w2 & n & -> & Hn & Hputs & Hwrites & Hall).
        eexists _, _, _, (S n). split; [reflexivity | ].
        cbn. rewrite Hputs. repeat split; [lia | exact Hwrites | ].
        intros He. rewrite (Hall He). reflexivity.
Qed.

Lemma writeTransactions_batch_exec was w :
  exists t err w1 n,
    exec writeTransactions was w = (t, Some (err, was), w1) /\
    batchOutcome (map transactionEntry (transactions was)) t err n.
Proof.
  unfold writeTransactions, batchOutcome. exec_all.
  destruct (handle DbNewBatch w) as [batch w1]; cbn [fst snd].
  destruct (putTransactions_batch batch (transactions was) was w1)
    as (t & err & w2 & n & -> & Hn & Hputs & Hwrites & Hall).
  rewrite length_map.
  destruct err as [e | ]; exec_all.
  - eexists _, _, _, n. split; [reflexivity | ].
    rewrite !batchPuts_app, !batchWrites_app, Hputs, Hwrites. cbn.
    rewrite ?app_nil_r.
    repeat split; try lia; discriminate.
  - specialize (Hall eq_refl).
    eexists _, _, _, n. split; [reflexivity | ].
    rewrite !batchPuts_app, !batchWrites_app, Hputs, Hwrites. cbn.
    rewrite ?app_nil_r. repeat split; try lia; try exact Hall.
Qed.

Lemma writeReceipts_batch_exec was w :
  exists t err w1 n,
    exec writeReceipts was w = (t, Some (err, was), w1) /\
    batchOutcome (map receiptEntry (receipts was)) t err n.
Proof.
  unfold writeReceipts, batchOutcome. exec_all.
  destruct (handle DbNewBatch w) as [batch w1]; cbn [fst snd].
  destruct (putReceipts_batch batch (receipts was) was w1)
    as (t & err & w2 & n & -> & Hn & Hputs & Hwrites & Hall).
  rewrite length_map.
  destruct err as [e | ]; exec_all.
  - eexists _, _, _, n. split; [reflexivity | ].
    rewrite !batchPuts_app, !batchWrites_app, Hputs, Hwrites. cbn.
    rewrite ?app_nil_r.
    repeat split; try lia; discriminate.
  - specialize (Hall eq_refl).
    eexists _, _, _, n. split; [reflexivity | ].
    rewrite !batchPuts_app, !batchWrites_app, Hputs, Hwrites. cbn.
    rewrite ?app_nil_r. repeat split; try lia; try exact Hall.
Qed.

(** A stage puts a prefix of its entries, all of them when it returns no
    error. *)
Lemma stage_batch st root was w :
  exists t root1 err w1 n,
    exec (commitStep st root) was w = (t, Some ((root1, err), was), w1) /\
    (n <= length (stageEntries st was))%nat /\
    batchPuts t = firstn n (stageEntries st was) /\
    (err = None ->
     n = length (stageEntries st was) /\ batchWrites t = stageWrites st).
Proof.
  destruct st; unfold commitStep.
  - exec_all. destruct (handle (StateCommit true) w) as [[root1 err] w1]; cbn [fst snd].
    eexists _, _, _, _, 0%nat. split; [reflexivity | ]. cbn. repeat split; lia.
  - exec_all. eexists _, _, _, _, 0%nat. split; [reflexivity | ].
    cbn. repeat split; lia.
  - unfold writeRoot. exec_all. eexists _, _, _, _, 0%nat. split; [reflexivity | ].
    cbn. repeat split; lia.
  - rewrite exec_bind, writeHead_exec. exec_all.
    eexists _, _, _, _, 0%nat. split; [reflexivity | ]. cbn. repeat split; lia.
  - rewrite exec_bind.
    destruct (writeTransactions_batch_exec was w)
      as (t & err & w1 & n & -> & Hn & Hputs & _ & _ & Hall).
    exec_all. eexists _, _, _, _, n. split; [reflexivity | ].
    rewrite app_nil_r. cbn [stageEntries stageWrites].
    repeat split; try assumption; apply Hall; assumption.
  - rewrite exec_bind.
    destruct (writeReceipts_batch_exec was w)
      as (t & err & w1 & n & -> & Hn & Hputs & _ & _ & Hall).
    exec_all. eexists _, _, _, _, n. split; [reflexivity | ].
    rewrite app_nil_r. cbn [stageEntries stageWrites].
    repeat split; try assumption; apply Hall; assumption.
Qed.

Lemma pipeline_batch stages root was w t log root1 was1 w1 :
  pipeline handle stages root was w t log root1 was1 w1 ->
  exists n,
    batchPuts t = firstn n (flat_map (fun st => stageEntries st was) stages) /\
    (firstError log = None ->
     batchPuts t = flat_map (fun st => stageEntries st was) stages /\
     batchWrites t = list_sum (map stageWrites stages)).
Proof.
  induction 1 as [root was w
                 | st rest root was w t root1 e was1 w1 Hst
                 | st rest root was w t root1 was1 w1 t' log root2 was2 w2 Hst Hrest IH].
  - exists 0%nat. repeat split.
  - destruct (stage_batch st root was w)
      as (t0 & r0 & e0 & w0 & n & Hex & Hn & Hputs & _).
    rewrite Hex in Hst. injection Hst as <- _ _ _.
    exists n. cbn [flat_map firstError]. split; [ | discriminate].
    rewrite firstn_app.
    replace (n - length (stageEntries st was))%nat with 0%nat by lia.
    rewrite firstn_O, app_nil_r. exact Hputs.
  - destruct (stage_batch st root was w)
      as (t0 & r0 & e0 & w0 & n & Hex & Hn & Hputs & Hall).
    rewrite Hex in Hst. injection Hst as <- <- -> <- <-.
    destruct (Hall eq_refl) as (-> & Hwrites).
    rewrite firstn_all in Hputs.
    destruct IH as (n' & Hputs' & Hall').
    exists (length (stageEntries st was) + n')%nat.
    cbn [flat_map firstError map list_sum].
    rewrite batchPuts_app, batchWrites_app, Hputs, Hputs', Hwrites.
    split.
    + rewrite firstn_app.
      rewrite (@firstn_all2 _ _ (stageEntries st was)) by lia.
      replace (length (stageEntries st was) + n' - length (stageEntries st was))%nat
        with n' by lia.
      reflexivity.
    + intros Hf. destruct (Hall' Hf) as (H1 & H2).
      rewrite <- Hputs', H1, H2. split; reflexivity.
Qed.

(** The batch puts of [Commit]: first the transactions, then the receipts, in
    buffer order; all of them, and two batches written, when it returns no
    error. *)
Lemma Commit_batch_exec was w t res was1 w1 :
  exec Commit was w = (t, Some (res, was1), w1) ->
  exists n,
    batchPuts t
      = firstn n (map transactionEntry (transactions was)
                  ++ map receiptEntry (receipts was)) /\
    (snd res = None ->
     batchPuts t = map transactionEntry (transactions was)
                   ++ map receiptEntry (receipts was) /\
     batchWrites t = 2%nat).
Proof.
  intros H.
  destruct (Commit_exec was w) as (t0 & log & root & w2 & Hp & Hex & _).
  rewrite Hex in H. injection H as <- <- _ _.
  destruct (pipeline_batch Hp) as (n & Hputs & Hall).
  unfold commitStages in Hputs, Hall. cbn in Hputs, Hall.
  rewrite app_nil_r in Hputs, Hall.
  exists n. split; [exact Hputs | ].
  unfold commitResult. destruct (firstError log); cbn [snd]; [discriminate | ].
  intros _. apply Hall. reflexivity.
Qed.

(** *** The four ways through [ApplyTransaction] *)

Lemma ApplyTransaction_paths tx ti blockHash was w t r w1 :
  exec (ApplyTransaction tx ti blockHash) was w = (t, r, w1) ->
  let msg := fst (AsMessage tx (signer was)) in
  let prepare := Ev (StatePrepare (txHash tx) blockHash ti) tt in
  let engine :=
    Ev (ApplyMessage (newContext msg blockHash) (chainConfig was) (vmConfig was)
                     msg (gp was)) in
  (exists e,
      snd (AsMessage tx (signer was)) = Some e /\
      t = [] /\ r = Some (Some e, was) /\ w1 = w) \/
  (exists res e,
      snd (AsMessage tx (signer was)) = None /\ mrErr res = Some e /\
      t = [prepare; engine res] /\
      r = Some (Some e, setGp (storePool (gp was) (mrPool res)) was)) \/
  (exists res,
      snd (AsMessage tx (signer was)) = None /\ mrErr res = None /\
      totalUsedGas was = None /\
      t = [prepare; engine res] /\ r = None) \/
  (exists res root logs total was1 receipt,
      snd (AsMessage tx (signer was)) = None /\ mrErr res = None /\
      totalUsedGas was = Some total /\
      t = [prepare; engine res;
           Ev (StateIntermediateRoot true) root; Ev (StateGetLogs (txHash tx)) logs] /\
      r = Some (None, was1) /\
      appended tx res total receipt was was1 /\
      receiptOf tx msg res total receipt /\
      PostState receipt = hashBytes root /\
      Logs receipt = logs /\
      RcptBloom receipt = CreateBloom [withBloom zeroBloom receipt] /\
      sameConfiguration was was1).
Proof.
  unfold ApplyTransaction. exec_all.
  destruct (AsMessage tx (signer was)) as [msg [e | ]]; cbn [fst snd].
  - exec_all. intros H; injection H as <- <- <-.
    left. exists e. repeat split.
  - exec_all.
    destruct (handle (StatePrepare (txHash tx) blockHash ti) w) as [[] w2];
      cbn [fst snd].
    exec_all.
    destruct (handle (ApplyMessage (newContext msg blockHash) (chainConfig was)
                        (vmConfig was) msg (gp was)) w2) as [res w3]; cbn [fst snd].
    exec_all.
    destruct (mrErr res) as [e | ] eqn:Eerr.
    + exec_all. intros H; injection H as <- <- <-.
      right; left. exists res, e. repeat split. exact Eerr.
    + exec_all. cbn [totalUsedGas setGp].
      destruct (totalUsedGas was) as [total | ] eqn:Etot; cbn [deref].
      * exec_all. cbn [totalUsedGas setTotalUsedGas setGp deref]. exec_all.
        intros H; injection H as <- <- <-.
        right; right; right.
        exists res. eexists _, _, total, _, _.
        split; [reflexivity | ]. split; [exact Eerr | ].
        split; [reflexivity | ]. split; [reflexivity | ].
        split; [reflexivity | ].
        split.
        { unfold appended, SetUint64. cbn. repeat split; reflexivity. }
        split.
        { unfold receiptOf, SetUint64, newContext.
          destruct (To msg); cbn; repeat split; reflexivity. }
        destruct (To msg); cbn; repeat split; reflexivity.
      * exec_all. intros H; injection H as <- <- <-.
        right; right; left. exists res. repeat split. exact Eerr.
Qed.

(** *** What the receipts of an epoch hold *)

Lemma firstn_snoc_short {A} (l : list A) (x : A) i :
  (i <= length l)%nat -> firstn i (l ++ [x]) = firstn i l.
Proof.
  intros Hi. rewrite firstn_app.
  replace (i - length l)%nat with 0%nat by lia.
  rewrite firstn_O, app_nil_r. reflexivity.
Qed.

Lemma epoch_receipts hist was w :
  InEpoch handle hist was w ->
  map TxHash (receipts was) = map (fun a => txHash (apTx a)) hist /\
  allLogs was = flat_map Logs (receipts was) /\
  map Status (receipts was) = map (fun a => statusOf (apReverted a)) hist /\
  (forall i receipt,
      nth_error (receipts was) i = Some receipt ->
      CumulativeGasUsed receipt = Uint64 (sumGas (firstn (S i) hist))) /\
  gp was <> None.
Proof.
  induction 1 as [root was w t was1 w1 Hreset
                 | hist was w tx ti blockHash t was1 w1 Hin IH Happly
                 | hist was w tx ti blockHash t e was1 w1 Hin IH Happly
                 | hist was w t res was1 w1 Hin IH Hcommit].
  - apply Reset_exec in Hreset.
    destruct (fst (handle (StateReset root) w)); [discriminate | ].
    injection Hreset as ->. cbn. repeat split; try discriminate.
    intros [ | i] receipt Hnth; discriminate Hnth.
  - destruct (epoch_invariant Hin) as (_ & Hgas & Htot & _).
    assert (Hlen : length (receipts was) = length hist)
      by (rewrite <- (length_map GasUsed), Hgas; apply length_map).
    destruct IH as (Hhash & Hlogs & Hstatus & Hcum & Hgp).
    apply ApplyTransaction_outcome in Happly.
    destruct (snd (AsMessage tx (signer was))); [destruct Happly; discriminate | ].
    destruct Happly as (res & Hans & Hres).
    destruct (mrErr res); [discriminate | ].
    rewrite Htot in Hres.
    destruct Hres as (was2 & receipt & Heq & Hrcpt & Happ).
    injection Heq as <-.
    destruct Hrcpt as (Hst & Hc & Hh & _ & _).
    destruct Happ as (_ & _ & Hr & Hl & _ & Hp & _).
    assert (Hrev : traceReverted t = mrFailed res)
      by (unfold traceReverted; rewrite Hans; cbn; apply orb_false_r).
    assert (Hgas' : traceGas t = mrGas res)
      by (unfold traceGas; rewrite Hans; simpl; lia).
    rewrite Hr, Hl, !map_app, Hhash, Hstatus, flat_map_app, Hlogs.
    cbn [map flat_map apTx apReverted]. rewrite app_nil_r, Hh, Hst, Hrev.
    repeat split.
    + intros i receipt' Hnth.
      destruct (Nat.lt_ge_cases i (length (receipts was))) as [Hi | Hi].
      * rewrite nth_error_app1 in Hnth by exact Hi.
        rewrite firstn_snoc_short by lia. apply Hcum. exact Hnth.
      * rewrite nth_error_app2 in Hnth by exact Hi.
        destruct (i - length (receipts was))%nat as [ | k] eqn:Hk;
          [ | destruct k; discriminate Hnth].
        injection Hnth as <-.
        rewrite firstn_all2 by (rewrite length_app; simpl; lia).
        rewrite sumGas_snoc. cbn [apGas]. rewrite Hgas'. exact Hc.
    + rewrite Hp. destruct (gp was); [discriminate | contradiction].
  - apply ApplyTransaction_outcome in Happly.
    destruct (snd (AsMessage tx (signer was))).
    + destruct Happly as (_ & Heq). injection Heq as _ <-. exact IH.
    + destruct Happly as (res & _ & Hres).
      destruct (mrErr res).
      * injection Hres as _ ->. cbn.
        destruct IH as (H1 & H2 & H3 & H4 & H5).
        repeat split; try assumption.
        destruct (gp was); [discriminate | contradiction].
      * destruct (totalUsedGas was); [ | discriminate].
        destruct Hres as (? & ? & Heq & _). discriminate.
  - destruct (Commit_exec was w) as (t0 & log & root & w2 & _ & Hex & _).
    rewrite Hex in Hcommit. injection Hcommit as _ _ <- _. exact IH.
Qed.

Lemma sumGas_nonneg hist : 0 <= sumGas hist.
Proof.
  unfold sumGas. induction hist as [ | a hist IH]; simpl; lia.
Qed.

Lemma sumGas_firstn hist k : 0 <= sumGas (firstn k hist) <= sumGas hist.
Proof.
  split; [apply sumGas_nonneg | ].
  revert k; induction hist as [ | a hist IH]; intros [ | k]; simpl; try lia.
  - pose proof (sumGas_nonneg hist). unfold sumGas in *. lia.
  - specialize (IH k). unfold sumGas in *. lia.
Qed.

Lemma Uint64_small z : 0 <= z < 2 ^ 64 -> Z.of_N (Uint64 z) = z.
Proof.
  intros Hz. unfold Uint64.
  rewrite Z.abs_eq by lia. rewrite Z.mod_small by lia.
  apply Z2N.id. lia.
Qed.

(** *** Further properties of the methods *)

(** X1. A session that was never reset cannot apply a transaction: the
    call returns an error with the session as constructed, or panics. *)
Theorem fresh_session_cannot_apply sg cc vc limit tx ti blockHash w t r w1 :
  exec (ApplyTransaction tx ti blockHash) (NewWriteAheadState sg cc vc limit) w
    = (t, r, w1) ->
  r = None \/ exists e, r = Some (Some e, NewWriteAheadState sg cc vc limit).
Proof.
  intros Hex. apply ApplyTransaction_paths in Hex. cbv zeta in Hex.
  destruct Hex as [(e & _ & _ & -> & _)
                  | [(res & e & _ & _ & _ & ->)
                    | [(res & _ & _ & _ & _ & ->)
                      | (res & root & logs & total & was1 & receipt & _ & _ & Htot & _)]]].
  - right. exists e. reflexivity.
  - right. exists e. reflexivity.
  - left. reflexivity.
  - discriminate Htot.
Qed.

(** X2. In an epoch neither pointer of the session is nil: the
    cumulative gas and the gas pool are allocated, by the [Reset] that
    opened the epoch, and no call since has set them back. *)
Theorem epoch_pointers_allocated hist was w :
  InEpoch handle hist was w ->
  exists total pool, totalUsedGas was = Some total /\ gp was = Some pool.
Proof.
  intros Hin.
  destruct (epoch_invariant Hin) as (_ & _ & Htot & _).
  destruct (epoch_receipts Hin) as (_ & _ & _ & _ & Hgp).
  destruct (gp was) as [pool | ]; [ | contradiction].
  exists (sumGas hist), pool. split; [exact Htot | reflexivity].
Qed.

(** X3. In an epoch the receipts run parallel to the transactions: the
    receipt at a position carries the hash of the transaction there. *)
Theorem receipts_follow_transactions hist was w :
  InEpoch handle hist was w ->
  map TxHash (receipts was) = map txHash (transactions was).
Proof.
  intros Hin.
  destruct (epoch_invariant Hin) as (Htx & _).
  destruct (epoch_receipts Hin) as (Hhash & _).
  rewrite Hhash, Htx, map_map. reflexivity.
Qed.

(** X4. In an epoch the log buffer is the logs of the receipts, receipt
    after receipt. *)
Theorem allLogs_are_receipt_logs hist was w :
  InEpoch handle hist was w ->
  allLogs was = flat_map Logs (receipts was).
Proof.
  intros Hin. destruct (epoch_receipts Hin) as (_ & Hlogs & _). exact Hlogs.
Qed.

(** X5. In an epoch the status of each receipt is the outcome the engine
    reported for its transaction: failed when the execution reverted,
    successful otherwise. *)
Theorem receipt_status_follows_engine hist was w :
  InEpoch handle hist was w ->
  map Status (receipts was) = map (fun a => statusOf (apReverted a)) hist.
Proof.
  intros Hin. destruct (epoch_receipts Hin) as (_ & _ & Hstatus & _). exact Hstatus.
Qed.

(** X6. In an epoch the cumulative gas of the receipt at position [i] is
    the low 64 bits of the gas used by the transactions up to and
    including that one; it is that sum itself as long as the gas of the
    whole epoch stays below 2^64. *)
Theorem receipt_cumulative_gas hist was w i receipt :
  InEpoch handle hist was w ->
  nth_error (receipts was) i = Some receipt ->
  CumulativeGasUsed receipt = Uint64 (sumGas (firstn (S i) hist)) /\
  (sumGas hist < 2 ^ 64 ->
   Z.of_N (CumulativeGasUsed receipt) = sumGas (firstn (S i) hist)).
Proof.
  intros Hin Hnth.
  destruct (epoch_receipts Hin) as (_ & _ & _ & Hcum & _).
  rewrite (Hcum _ _ Hnth). split; [reflexivity | ].
  intros Hsmall. apply Uint64_small.
  pose proof (sumGas_firstn hist (S i)). lia.
Qed.

(** X7. A successful [ApplyTransaction] makes four calls in this order:
    it prepares the state with the transaction hash, the block hash and
    the index it was given, runs the engine on a context whose block-hash
    oracle answers the given block hash at every height, finalizes the
    intermediate root, and fetches the logs of the transaction.  The
    receipt holds that root and those logs, and its bloom is computed from
    the receipt with the logs set. *)
Theorem ApplyTransaction_call_order tx ti blockHash was w t was1 w1 :
  exec (ApplyTransaction tx ti blockHash) was w = (t, Some (None, was1), w1) ->
  exists res root logs receipt,
    t = [Ev (StatePrepare (txHash tx) blockHash ti) tt;
         Ev (ApplyMessage (newContext (fst (AsMessage tx (signer was))) blockHash)
                          (chainConfig was) (vmConfig was)
                          (fst (AsMessage tx (signer was))) (gp was)) res;
         Ev (StateIntermediateRoot true) root;
         Ev (StateGetLogs (txHash tx)) logs] /\
    (forall height,
        GetHash (newContext (fst (AsMessage tx (signer was))) blockHash) height
        = blockHash) /\
    receipts was1 = receipts was ++ [receipt] /\
    PostState receipt = hashBytes root /\
    Logs receipt = logs /\
    RcptBloom receipt = CreateBloom [withBloom zeroBloom receipt] /\
    allLogs was1 = allLogs was ++ logs /\
    gp was1 = storePool (gp was) (mrPool res).
Proof.
  intros Hex. apply ApplyTransaction_paths in Hex. cbv zeta in Hex.
  destruct Hex as [(e & _ & _ & Heq & _)
                  | [(res & e & _ & _ & _ & Heq)
                    | [(res & _ & _ & _ & _ & Heq)
                      | (res & root & logs & total & was2 & receipt
                         & _ & _ & _ & -> & Heq & Happ & _ & Hpost & Hlogs & Hbloom & _)]]];
    try discriminate Heq.
  injection Heq as <-.
  destruct Happ as (_ & _ & Hr & Hl & _ & Hp & _).
  exists res, root, logs, receipt.
  rewrite Hlogs in Hl.
  repeat split; assumption.
Qed.

(** X8. An error of [ApplyTransaction] is of one of two kinds.  When the
    signature derivation fails, no call is made: the session and the world
    are untouched.  When the engine fails, the state was prepared and the
    engine run, and nothing else: the session is as before except for the
    gas pool, which stays as the engine left it. *)
Theorem ApplyTransaction_error_paths tx ti blockHash was w t e was1 w1 :
  exec (ApplyTransaction tx ti blockHash) was w = (t, Some (Some e, was1), w1) ->
  (snd (AsMessage tx (signer was)) = Some e /\ t = [] /\ was1 = was /\ w1 = w) \/
  (exists res,
      snd (AsMessage tx (signer was)) = None /\ mrErr res = Some e /\
      t = [Ev (StatePrepare (txHash tx) blockHash ti) tt;
           Ev (ApplyMessage (newContext (fst (AsMessage tx (signer was))) blockHash)
                            (chainConfig was) (vmConfig was)
                            (fst (AsMessage tx (signer was))) (gp was)) res] /\
      was1 = setGp (storePool (gp was) (mrPool res)) was).
Proof.
  intros Hex. apply ApplyTransaction_paths in Hex. cbv zeta in Hex.
  destruct Hex as [(e0 & Hsig & Ht & Heq & Hw)
                  | [(res & e0 & Hsig & Herr & Ht & Heq)
                    | [(res & _ & _ & _ & _ & Heq)
                      | (res & root & logs & total & was2 & receipt
                         & _ & _ & _ & _ & Heq & _)]]];
    try discriminate Heq.
  - injection Heq as <- <-. left. repeat split; assumption.
  - injection Heq as <- ->. right. exists res. repeat split; assumption.
Qed.

(** X9. No method assigns the configuration of a session: signer, chain
    configuration, VM configuration and gas limit are those of the
    construction after every [Reset], [ApplyTransaction] and [Commit]. *)
Theorem methods_keep_configuration was w :
  (forall root t r was1 w1,
      exec (Reset root) was w = (t, Some (r, was1), w1) ->
      sameConfiguration was was1) /\
  (forall tx ti blockHash t r was1 w1,
      exec (ApplyTransaction tx ti blockHash) was w = (t, Some (r, was1), w1) ->
      sameConfiguration was was1) /\
  (forall t r was1 w1,
      exec Commit was w = (t, Some (r, was1), w1) ->
      sameConfiguration was was1).
Proof.
  split; [ | split].
  - intros root t r was1 w1 Hex. apply Reset_exec in Hex.
    destruct (fst (handle (StateReset root) w));
      injection Hex as _ ->; repeat split.
  - intros tx ti blockHash t r was1 w1 Hex.
    apply ApplyTransaction_paths in Hex. cbv zeta in Hex.
    destruct Hex as [(e0 & _ & _ & Heq & _)
                    | [(res & e0 & _ & _ & _ & Heq)
                      | [(res & _ & _ & _ & _ & Heq)
                        | (res & root & logs & total & was2 & receipt
                           & _ & _ & _ & _ & Heq & _ & _ & _ & _ & _ & Hcfg)]]];
      try discriminate Heq.
    + injection Heq as _ <-. repeat split.
    + injection Heq as _ ->. repeat split.
    + injection Heq as _ <-. exact Hcfg.
  - intros t r was1 w1 Hex.
    destruct (Commit_exec was w) as (t0 & log & root & w2 & _ & Hex0 & _).
    rewrite Hex0 in Hex. injection Hex as _ _ <- _. repeat split.
Qed.

(** X10. [writeTransactions] leaves the session alone, and its calls are
    a [batchRun] of the transactions of the buffer: it asks for a batch;
    it puts the transactions into that batch in buffer order, each under
    its hash with its encoding; the first transaction that cannot be
    encoded or put ends the loop, nothing is encoded or put after it, the
    batch is not written and the error is returned; when every put went
    through, the batch is written once, as the last call, and the answer
    of the write is returned. *)
Theorem writeTransactions_batch was w t r w1 :
  exec writeTransactions was w = (t, r, w1) ->
  exists err,
    r = Some (err, was) /\
    batchRun (map transactionItem (transactions was)) t err.
Proof.
  intros Hex.
  destruct (writeTransactions_run was w) as (t0 & err & w2 & Hex0 & Hrun).
  rewrite Hex0 in Hex. injection Hex as <- <- _.
  exists err. split; [reflexivity | exact Hrun].
Qed.

(** X11. [writeReceipts] does the same with the receipts of the buffer,
    each under the receipts prefix followed by the hash of its
    transaction, with its storage encoding. *)
Theorem writeReceipts_batch was w t r w1 :
  exec writeReceipts was w = (t, r, w1) ->
  exists err,
    r = Some (err, was) /\
    batchRun (map receiptItem (receipts was)) t err.
Proof.
  intros Hex.
  destruct (writeReceipts_run was w) as (t0 & err & w2 & Hex0 & Hrun).
  rewrite Hex0 in Hex. injection Hex as <- <- _.
  exists err. split; [reflexivity | exact Hrun].
Qed.

(** X12. Whatever happens, the batch puts of [Commit] are a prefix of the
    entries of the transactions followed by the entries of the receipts;
    when [Commit] returns no error they are all of them and exactly two
    batches were written. *)
Theorem Commit_batches was w t res was1 w1 :
  exec Commit was w = (t, Some (res, was1), w1) ->
  exists n,
    batchPuts t
      = firstn n (map transactionEntry (transactions was)
                  ++ map receiptEntry (receipts was)) /\
    (snd res = None ->
     batchPuts t = map transactionEntry (transactions was)
                   ++ map receiptEntry (receipts was) /\
     batchWrites t = 2%nat).
Proof. apply Commit_batch_exec. Qed.

(** X13. When a [Commit] in an epoch returns no error, the keys put in the
    batches are the hashes of the transactions applied in the epoch, in
    order, followed by the receipts prefix with each of these hashes. *)
Theorem Commit_keys_in_epoch hist was w t root was1 w1 :
  InEpoch handle hist was w ->
  exec Commit was w = (t, Some ((root, None), was1), w1) ->
  map fst (batchPuts t)
  = map (fun a => hashBytes (txHash (apTx a))) hist
    ++ map (fun a => receiptsPrefix ++ hashBytes (txHash (apTx a))) hist.
Proof.
  intros Hin Hex.
  destruct (epoch_invariant Hin) as (Htx & _).
  destruct (epoch_receipts Hin) as (Hhash & _).
  destruct (Commit_batch_exec _ _ Hex) as (n & _ & Hall).
  destruct (Hall eq_refl) as (-> & _).
  rewrite map_app, !map_map. cbn [transactionEntry receiptEntry fst].
  rewrite Htx, map_map. f_equal.
  rewrite <- (map_map TxHash (fun h => receiptsPrefix ++ hashBytes h)), Hhash, map_map.
  reflexivity.
Qed.

(** X14. A [Commit] right after a successful [Reset], when it returns no
    error, writes the root pointer, the hash of the empty transaction as
    head pointer, and two batches with nothing in them. *)
Theorem Commit_of_empty_epoch root0 was0 w0 t0 was w t root was1 w1 :
  exec (Reset root0) was0 w0 = (t0, Some (None, was), w) ->
  exec Commit was w = (t, Some ((root, None), was1), w1) ->
  dbPuts t = [(rootKey, hashBytes root);
              (headTxKey, hashBytes (txHash emptyTransaction))] /\
  batchPuts t = [] /\
  batchWrites t = 2%nat.
Proof.
  intros Hreset Hex.
  apply Reset_exec in Hreset.
  destruct (fst (handle (StateReset root0) w0)); [discriminate | ].
  injection Hreset as ->.
  destruct (Commit_puts _ _ Hex) as (root' & n & Hputs & Hok).
  destruct (Hok eq_refl) as (-> & <-).
  destruct (Commit_batch_exec _ _ Hex) as (_ & _ & Hall).
  destruct (Hall eq_refl) as (Hb & Hw).
  repeat split; assumption.
Qed.

(** X15. [Commit] does not start a new epoch: after a [Commit] and,
    without a [Reset], one more successful [ApplyTransaction], the next
    [Commit] that returns no error puts every transaction and every
    receipt of before the first [Commit] again, followed by the new
    ones. *)
Theorem second_Commit_puts_again
    was w t1 res1 was1 w1 tx ti blockHash t2 was2 w2 t3 root3 was3 w3 :
  exec Commit was w = (t1, Some (res1, was1), w1) ->
  exec (ApplyTransaction tx ti blockHash) was1 w1 = (t2, Some (None, was2), w2) ->
  exec Commit was2 w2 = (t3, Some ((root3, None), was3), w3) ->
  exists receipt,
    receipts was2 = receipts was ++ [receipt] /\
    batchPuts t3
    = map transactionEntry (transactions was ++ [tx])
      ++ map receiptEntry (receipts was ++ [receipt]).
Proof.
  intros Hc1 Happly Hc2.
  destruct (Commit_exec was w) as (t0 & log & root & w0 & _ & Hex & _).
  rewrite Hex in Hc1. injection Hc1 as _ _ <- _.
  apply ApplyTransaction_outcome in Happly.
  destruct (snd (AsMessage tx (signer was))); [destruct Happly; discriminate | ].
  destruct Happly as (res & _ & Hres).
  destruct (mrErr res); [discriminate | ].
  destruct (totalUsedGas was); [ | discriminate].
  destruct Hres as (was2' & receipt & Heq & _ & Happ).
  injection Heq as <-.
  destruct Happ as (_ & Ht & Hr & _).
  destruct (Commit_batch_exec _ _ Hc2) as (n & _ & Hall).
  destruct (Hall eq_refl) as (Hputs & _).
  exists receipt. split; [exact Hr | ].
  rewrite Hputs, Ht, Hr. reflexivity.
Qed.

End Properties.

(** ** The theorems on runs of the double *)

#[local] Existing Instance Double.eth.

Lemma Double_epoch_ready :
  InEpoch Double.handle [] Double.ready Double.readyWorld.
Proof.
  apply (@epoch_reset _ _ Double.handle Double.genesis Double.fresh (Double.world 30)
           (fst (fst Double.resetRun)) Double.ready Double.readyWorld).
  vm_compute. reflexivity.
Qed.

Lemma Double_epoch_one :
  InEpoch Double.handle [mkApplied Double.transfer 21000 false]
          Double.one Double.oneWorld.
Proof.
  refine (@epoch_applied _ _ Double.handle [] Double.ready Double.readyWorld
            Double.transfer 0 Double.genesis (fst (fst Double.transferRun))
            Double.one Double.oneWorld Double_epoch_ready _).
  vm_compute. reflexivity.
Qed.

Lemma Double_epoch_two :
  InEpoch Double.handle Double.history Double.two Double.twoWorld.
Proof.
  refine (@epoch_applied _ _ Double.handle [mkApplied Double.transfer 21000 false]
            Double.one Double.oneWorld
            Double.creation 1 Double.genesis (fst (fst Double.creationRun))
            Double.two Double.twoWorld Double_epoch_one _).
  vm_compute. reflexivity.
Qed.

(** The commit at the end of the epoch of the double goes through, and
    writes the root pointer and then the hash of the creation, the last
    transaction applied. *)
Example Double_commit_result :
  Double.resultOf Double.commitRun = (Double.stateRoot Double.twoWorld, None).
Proof. vm_compute. reflexivity. Qed.

Example Double_commit_puts :
  dbPuts (fst (fst Double.commitRun))
  = [(rootKey, hashBytes (Double.stateRoot Double.twoWorld));
     (headTxKey, hashBytes (txHash Double.creation))].
Proof. vm_compute. reflexivity. Qed.

(** A commit right after the reset writes the hash of the empty
    transaction as head pointer. *)
Example Double_commit_empty_epoch :
  dbPuts (fst (fst (exec Double.handle Commit Double.ready Double.readyWorld)))
  = [(rootKey, hashBytes Double.genesis);
     (headTxKey, hashBytes (txHash emptyTransaction))].
Proof. vm_compute. reflexivity. Qed.

(** The stages a commit runs when the root pointer cannot be written. *)
Example Double_failed_commit_calls :
  map (fun ev => dbPut ev) (fst (fst Double.failedCommit))
  = [None; None; Some (rootKey, hashBytes Double.genesis)]
  /\ Double.resultOf Double.failedCommit = (zeroHash, Some "put failed"%string).
Proof. vm_compute. split; reflexivity. Qed.

(** A transaction without signature is turned down before any call. *)
Example Double_unsigned_rejected :
  exec Double.handle (ApplyTransaction Double.unsigned 2 Double.genesis)
       Double.two Double.twoWorld
  = ([], Some (Some "invalid transaction v, r, s values"%string, Double.two),
     Double.twoWorld).
Proof. vm_compute. reflexivity. Qed.

(** C2 on the double: the commit at the end of the epoch. *)
Lemma Commit_writes_head_pointer_witness :
  exists root,
    (dbPutResults (fst (fst Double.commitRun)) = [] /\
     snd (Double.resultOf Double.commitRun) <> None) \/
    (exists e,
        dbPutResults (fst (fst Double.commitRun))
        = [(rootKey, hashBytes root, Some e)] /\
        snd (Double.resultOf Double.commitRun) = Some e) \/
    (exists err,
        dbPutResults (fst (fst Double.commitRun))
        = [(rootKey, hashBytes root, None);
           (headTxKey,
            hashBytes (txHash (last (map apTx Double.history) emptyTransaction)), err)] /\
        (forall e, err = Some e -> snd (Double.resultOf Double.commitRun) = Some e) /\
        (snd (Double.resultOf Double.commitRun) = None ->
         err = None /\ fst (Double.resultOf Double.commitRun) = root)).
Proof.
  apply (@Commit_writes_head_pointer _ _ Double.handle Double.history
           Double.two Double.twoWorld (fst (fst Double.commitRun))
           (Double.resultOf Double.commitRun) Double.two (snd Double.commitRun)).
  - exact Double_epoch_two.
  - vm_compute. reflexivity.
Defined.

(** C2, the claim as it was stated, on the double: in an epoch without
    transactions the commit goes through and the head pointer it writes is
    the hash of the empty transaction, which is neither the zero hash nor
    empty. *)
Lemma head_sentinel_is_not_zero :
  transactions Double.ready = [] /\
  dbPutResults (fst (fst Double.emptyCommit))
  = [(rootKey, hashBytes Double.genesis, None);
     (headTxKey, hashBytes (txHash emptyTransaction), None)] /\
  hashBytes (txHash emptyTransaction) <> hashBytes zeroHash /\
  hashBytes (txHash emptyTransaction) <> [].
Proof.
  split; [reflexivity | ].
  split; [vm_compute; reflexivity | ].
  split; intros H; vm_compute in H; discriminate H.
Qed.

(** C3 on the double: the creation, whose code reverts. *)
Lemma reverted_transaction_is_applied_witness :
  exists was1 receipt,
    snd (fst Double.creationRun) = Some (None, was1) /\
    Status receipt = ReceiptStatusFailed /\
    GasUsed receipt = mrGas Double.creationAnswer /\
    CumulativeGasUsed receipt = Uint64 (21000 + Z.of_N (mrGas Double.creationAnswer)) /\
    totalUsedGas was1 = Some (21000 + Z.of_N (mrGas Double.creationAnswer)) /\
    transactions was1 = transactions Double.one ++ [Double.creation] /\
    receipts was1 = receipts Double.one ++ [receipt] /\
    allLogs was1 = allLogs Double.one ++ Logs receipt /\
    txIndex was1 = wrapInt (txIndex Double.one + 1).
Proof.
  apply (@reverted_transaction_is_applied _ _ Double.handle Double.creation 1
           Double.genesis Double.one Double.oneWorld (fst (fst Double.creationRun))
           (snd (fst Double.creationRun)) (snd Double.creationRun)
           Double.creationAnswer 21000).
  - vm_compute. reflexivity.
  - vm_compute. reflexivity.
  - reflexivity.
  - reflexivity.
  - reflexivity.
Defined.

(** C4 on the double: the pool cannot pay for the transaction. *)
Lemma ApplyTransaction_error_keeps_buffers_witness :
  (snd (AsMessage Double.greedy (signer Double.two)) = Some "gas limit reached"%string \/
   exists res, engineAnswers (fst (fst Double.greedyRun)) = [res] /\
               mrErr res = Some "gas limit reached"%string) /\
  transactions (Double.sessionOf Double.greedyRun) = transactions Double.two /\
  receipts (Double.sessionOf Double.greedyRun) = receipts Double.two /\
  allLogs (Double.sessionOf Double.greedyRun) = allLogs Double.two /\
  totalUsedGas (Double.sessionOf Double.greedyRun) = totalUsedGas Double.two /\
  txIndex (Double.sessionOf Double.greedyRun) = txIndex Double.two.
Proof.
  apply (@ApplyTransaction_error_keeps_buffers _ _ Double.handle Double.greedy 2
           Double.genesis Double.two Double.twoWorld (fst (fst Double.greedyRun))
           "gas limit reached"%string (Double.sessionOf Double.greedyRun)
           (snd Double.greedyRun)).
  vm_compute. reflexivity.
Defined.

(** C5 on the double: two applies. *)
Lemma epoch_counts_witness :
  txIndex Double.two = Z.of_nat (length Double.history) /\
  length (transactions Double.two) = length Double.history /\
  length (receipts Double.two) = length Double.history.
Proof.
  apply (@epoch_counts _ _ Double.handle Double.history Double.two Double.twoWorld).
  - exact Double_epoch_two.
  - vm_compute. reflexivity.
Defined.

(** C6, the claim as it was stated, on the double: the database does not
    know the root, [Reset] returns the error, and the buffers, the gas
    pool, the cumulative gas and the index of the epoch are still there. *)
Lemma Reset_failure_keeps_buffers :
  snd (fst Double.failedReset)
    = Some (Some "missing trie node"%string, Double.two) /\
  transactions Double.two <> [] /\
  receipts Double.two <> [] /\
  allLogs Double.two <> [] /\
  gp Double.two <> Some (gasLimit Double.two) /\
  totalUsedGas Double.two <> Some 0 /\
  txIndex Double.two <> 0.
Proof.
  split; [vm_compute; reflexivity | ].
  repeat split; intros H; vm_compute in H; discriminate H.
Qed.

(** C8 on the double: the creation has no recipient. *)
Lemma receipt_contract_address_witness :
  exists receipt,
    receipts Double.two = receipts Double.one ++ [receipt] /\
    (Recipient Double.creation = None ->
     ContractAddress receipt
       = CreateAddress
           (Origin (newContext (fst (AsMessage Double.creation (signer Double.one)))
                               Double.genesis))
           (Nonce Double.creation)) /\
    (Recipient Double.creation <> None -> ContractAddress receipt = zeroAddress).
Proof.
  apply (@receipt_contract_address _ _ Double.handle Double.creation 1
           Double.genesis Double.one Double.oneWorld (fst (fst Double.creationRun))
           Double.two Double.twoWorld).
  - vm_compute. reflexivity.
  - reflexivity.
Defined.

(** C9 on the double: 21000 and 53000, the second one reverted. *)
Lemma cumulative_gas_is_sum_witness :
  totalUsedGas Double.two = Some (sumGas Double.history) /\
  map GasUsed (receipts Double.two) = map apGas Double.history /\
  forall tx ti blockHash t was1 w1,
    exec Double.handle (ApplyTransaction tx ti blockHash) Double.two Double.twoWorld
      = (t, Some (None, was1), w1) ->
    exists total1,
      totalUsedGas was1 = Some total1 /\
      total1 = sumGas Double.history + Z.of_N (traceGas t) /\
      sumGas Double.history <= total1.
Proof.
  apply (@cumulative_gas_is_sum _ _ Double.handle Double.history
           Double.two Double.twoWorld).
  exact Double_epoch_two.
Defined.

(** C10 on the double: the write of the root pointer fails. *)
Lemma Commit_error_returns_zero_hash_witness :
  fst (Double.resultOf Double.failedCommit) = zeroHash.
Proof.
  apply (@Commit_error_returns_zero_hash _ _ Double.handle Double.two
           (Double.world 2) (fst (fst Double.failedCommit))
           (fst (Double.resultOf Double.failedCommit)) "put failed"%string
           Double.two (snd Double.failedCommit)).
  vm_compute. reflexivity.
Defined.

(** ** The further properties on runs of the double *)

(** X1 on the double: the engine turns down the nil pool. *)
Lemma fresh_session_cannot_apply_witness :
  snd (fst Double.freshRun) = None \/
  exists e, snd (fst Double.freshRun)
            = Some (Some e, NewWriteAheadState (tt : @Signer Double.eth) tt tt 100000).
Proof.
  apply (@fresh_session_cannot_apply Double.eth _ Double.handle tt tt tt 100000%N
           Double.transfer 0 Double.genesis (Double.world 5)
           (fst (fst Double.freshRun)) (snd (fst Double.freshRun))
           (snd Double.freshRun)).
  vm_compute. reflexivity.
Defined.

(** X2 on the double: the end of the epoch. *)
Lemma epoch_pointers_allocated_witness :
  exists total pool,
    totalUsedGas Double.two = Some total /\ gp Double.two = Some pool.
Proof.
  apply (@epoch_pointers_allocated _ _ Double.handle Double.history Double.two
           Double.twoWorld).
  exact Double_epoch_two.
Defined.

(** X3 on the double. *)
Lemma receipts_follow_transactions_witness :
  map TxHash (receipts Double.two) = map txHash (transactions Double.two).
Proof.
  apply (@receipts_follow_transactions _ _ Double.handle Double.history
           Double.two Double.twoWorld).
  exact Double_epoch_two.
Defined.

(** X4 on the double. *)
Lemma allLogs_are_receipt_logs_witness :
  allLogs Double.two = flat_map Logs (receipts Double.two).
Proof.
  apply (@allLogs_are_receipt_logs _ _ Double.handle Double.history
           Double.two Double.twoWorld).
  exact Double_epoch_two.
Defined.

(** X5 on the double: the transfer went through, the creation reverted. *)
Lemma receipt_status_follows_engine_witness :
  map Status (receipts Double.two)
  = map (fun a => statusOf (apReverted a)) Double.history.
Proof.
  apply (@receipt_status_follows_engine _ _ Double.handle Double.history
           Double.two Double.twoWorld).
  exact Double_epoch_two.
Defined.

(** X6 on the double: the second receipt, 21000 + 53000. *)
Lemma receipt_cumulative_gas_witness :
  CumulativeGasUsed (last (receipts Double.two) (NewReceipt [] false 0))
    = Uint64 (sumGas (firstn 2 Double.history)) /\
  (sumGas Double.history < 2 ^ 64 ->
   Z.of_N (CumulativeGasUsed (last (receipts Double.two) (NewReceipt [] false 0)))
     = sumGas (firstn 2 Double.history)).
Proof.
  apply (@receipt_cumulative_gas _ _ Double.handle Double.history Double.two
           Double.twoWorld 1%nat (last (receipts Double.two) (NewReceipt [] false 0))).
  - exact Double_epoch_two.
  - vm_compute. reflexivity.
Defined.

(** X7 on the double: the creation. *)
Lemma ApplyTransaction_call_order_witness :
  exists res root logs receipt,
    fst (fst Double.creationRun)
    = [Ev (StatePrepare (txHash Double.creation) Double.genesis 1) tt;
       Ev (ApplyMessage
             (newContext (fst (AsMessage Double.creation (signer Double.one)))
                         Double.genesis)
             (chainConfig Double.one) (vmConfig Double.one)
             (fst (AsMessage Double.creation (signer Double.one))) (gp Double.one)) res;
       Ev (StateIntermediateRoot true) root;
       Ev (StateGetLogs (txHash Double.creation)) logs] /\
    (forall height,
        GetHash (newContext (fst (AsMessage Double.creation (signer Double.one)))
                            Double.genesis) height
        = Double.genesis) /\
    receipts Double.two = receipts Double.one ++ [receipt] /\
    PostState receipt = hashBytes root /\
    Logs receipt = logs /\
    RcptBloom receipt = CreateBloom [withBloom zeroBloom receipt] /\
    allLogs Double.two = allLogs Double.one ++ logs /\
    gp Double.two = storePool (gp Double.one) (mrPool res).
Proof.
  apply (@ApplyTransaction_call_order _ _ Double.handle Double.creation 1
           Double.genesis Double.one Double.oneWorld (fst (fst Double.creationRun))
           Double.two Double.twoWorld).
  vm_compute. reflexivity.
Defined.

(** X8 on the double: the pool cannot pay, and is left as the engine left
    it. *)
Lemma ApplyTransaction_error_paths_witness :
  (snd (AsMessage Double.greedy (signer Double.two)) = Some "gas limit reached"%string /\
   fst (fst Double.greedyRun) = [] /\
   Double.sessionOf Double.greedyRun = Double.two /\
   snd Double.greedyRun = Double.twoWorld) \/
  (exists res,
      snd (AsMessage Double.greedy (signer Double.two)) = None /\
      mrErr res = Some "gas limit reached"%string /\
      fst (fst Double.greedyRun)
      = [Ev (StatePrepare (txHash Double.greedy) Double.genesis 2) tt;
         Ev (ApplyMessage
               (newContext (fst (AsMessage Double.greedy (signer Double.two)))
                           Double.genesis)
               (chainConfig Double.two) (vmConfig Double.two)
               (fst (AsMessage Double.greedy (signer Double.two))) (gp Double.two)) res] /\
      Double.sessionOf Double.greedyRun
      = setGp (storePool (gp Double.two) (mrPool res)) Double.two).
Proof.
  apply (@ApplyTransaction_error_paths _ _ Double.handle Double.greedy 2
           Double.genesis Double.two Double.twoWorld (fst (fst Double.greedyRun))
           "gas limit reached"%string (Double.sessionOf Double.greedyRun)
           (snd Double.greedyRun)).
  vm_compute. reflexivity.
Defined.

(** X10 on the double: the two transactions of the epoch. *)
Lemma writeTransactions_batch_witness :
  exists err,
    snd (fst Double.transactionBatchRun) = Some (err, Double.two) /\
    batchRun (map transactionItem (transactions Double.two))
             (fst (fst Double.transactionBatchRun)) err.
Proof.
  apply (@writeTransactions_batch _ _ Double.handle Double.two Double.twoWorld
           (fst (fst Double.transactionBatchRun))
           (snd (fst Double.transactionBatchRun))
           (snd Double.transactionBatchRun)).
  vm_compute. reflexivity.
Defined.

(** X11 on the double: the two receipts of the epoch. *)
Lemma writeReceipts_batch_witness :
  exists err,
    snd (fst Double.receiptBatchRun) = Some (err, Double.two) /\
    batchRun (map receiptItem (receipts Double.two))
             (fst (fst Double.receiptBatchRun)) err.
Proof.
  apply (@writeReceipts_batch _ _ Double.handle Double.two Double.twoWorld
           (fst (fst Double.receiptBatchRun))
           (snd (fst Double.receiptBatchRun))
           (snd Double.receiptBatchRun)).
  vm_compute. reflexivity.
Defined.

(** X12 on the double: the commit at the end of the epoch. *)
Lemma Commit_batches_witness :
  exists n,
    batchPuts (fst (fst Double.commitRun))
      = firstn n (map transactionEntry (transactions Double.two)
                  ++ map receiptEntry (receipts Double.two)) /\
    (snd (Double.resultOf Double.commitRun) = None ->
     batchPuts (fst (fst Double.commitRun))
       = map transactionEntry (transactions Double.two)
         ++ map receiptEntry (receipts Double.two) /\
     batchWrites (fst (fst Double.commitRun)) = 2%nat).
Proof.
  apply (@Commit_batches _ _ Double.handle Double.two Double.twoWorld
           (fst (fst Double.commitRun)) (Double.resultOf Double.commitRun)
           Double.two (snd Double.commitRun)).
  vm_compute. reflexivity.
Defined.

(** X13 on the double. *)
Lemma Commit_keys_in_epoch_witness :
  map fst (batchPuts (fst (fst Double.commitRun)))
  = map (fun a => hashBytes (txHash (apTx a))) Double.history
    ++ map (fun a => receiptsPrefix ++ hashBytes (txHash (apTx a))) Double.history.
Proof.
  apply (@Commit_keys_in_epoch _ _ Double.handle Double.history Double.two
           Double.twoWorld (fst (fst Double.commitRun))
           (fst (Double.resultOf Double.commitRun)) Double.two
           (snd Double.commitRun)).
  - exact Double_epoch_two.
  - vm_compute. reflexivity.
Defined.

(** X14 on the double: the commit right after the reset. *)
Lemma Commit_of_empty_epoch_witness :
  dbPuts (fst (fst Double.emptyCommit))
    = [(rootKey, hashBytes (fst (Double.resultOf Double.emptyCommit)));
       (headTxKey, hashBytes (txHash emptyTransaction))] /\
  batchPuts (fst (fst Double.emptyCommit)) = [] /\
  batchWrites (fst (fst Double.emptyCommit)) = 2%nat.
Proof.
  apply (@Commit_of_empty_epoch _ _ Double.handle Double.genesis Double.fresh
           (Double.world 30) (fst (fst Double.resetRun)) Double.ready
           Double.readyWorld (fst (fst Double.emptyCommit))
           (fst (Double.resultOf Double.emptyCommit)) Double.ready
           (snd Double.emptyCommit)).
  - vm_compute. reflexivity.
  - vm_compute. reflexivity.
Defined.

(** X15 on the double: a third transaction after the commit, and a second
    commit. *)
Lemma second_Commit_puts_again_witness :
  exists receipt,
    receipts Double.three = receipts Double.two ++ [receipt] /\
    batchPuts (fst (fst Double.secondCommit))
    = map transactionEntry (transactions Double.two ++ [Double.transfer])
      ++ map receiptEntry (receipts Double.two ++ [receipt]).
Proof.
  apply (@second_Commit_puts_again _ _ Double.handle Double.two Double.twoWorld
           (fst (fst Double.commitRun)) (Double.resultOf Double.commitRun)
           Double.two (snd Double.commitRun)
           Double.transfer 2 Double.genesis (fst (fst Double.thirdRun))
           Double.three (snd Double.thirdRun)
           (fst (fst Double.secondCommit))
           (fst (Double.resultOf Double.secondCommit)) Double.three
           (snd Double.secondCommit)).
  - vm_compute. reflexivity.
  - vm_compute. reflexivity.
  - vm_compute. reflexivity.
Defined.
